(** * DGA compliance checker: crawler and rule engine

    A shallow embedding of [src/utils/dgaScanner.js] (and of the two other
    copies of the scanner that the repository carries) and of
    [src/utils/webCrawler.js], followed by the properties of the
    specification that concern them.

    JavaScript numbers are IEEE 754 binary64 values: the score computation
    is modelled on Rocq's primitive floats, which have the same format and
    the same rounding.  Array lengths, counters and depths are integers.
    Strings are sequences of 8-bit characters (every URL the platform
    serialises is ASCII).  The DOM, the URL parser and the network are the
    platform's: they are the fields of the classes [Host] and [Net]. *)

From Stdlib Require Import ZArith List String Ascii Bool Lia Floats Uint63.
From Stdlib Require Import DecimalString.
Import ListNotations.

Local Open Scope string_scope.
Local Open Scope Z_scope.

(** * JavaScript preliminaries *)

Module Js.

(** Outcome of evaluating code that may throw; [message] is what
    [e.message] yields in a handler. *)
Inductive Completion (A : Type) : Type :=
| Normal (a : A)
| Throw (message : string).
Arguments Normal {A} a.
Arguments Throw {A} message.

Definition bind {A B : Type} (c : Completion A) (k : A -> Completion B)
  : Completion B :=
  match c with
  | Normal a => k a
  | Throw m => Throw m
  end.

(** [try { c } catch (e) { h e.message }] *)
Definition tryCatch {A : Type} (c : Completion A) (h : string -> A) : A :=
  match c with
  | Normal a => a
  | Throw m => h m
  end.

(** A string-valued slot that may also hold [null] or [undefined]. *)
Definition truthy (v : option string) : bool :=
  match v with
  | Some (String _ _) => true
  | _ => false
  end.

(** [a || b] on such slots. *)
Definition or (a b : option string) : option string :=
  if truthy a then a else b.

(** [a || d] for a string literal [d]. *)
Definition orDefault (a : option string) (d : string) : string :=
  match a with
  | Some (String c s) => String c s
  | _ => d
  end.

(** ** Strings *)

Definition rev (s : string) : string :=
  string_of_list_ascii (List.rev (list_ascii_of_string s)).

Definition startsWith (s p : string) : bool := String.prefix p s.

Definition endsWith (s p : string) : bool := String.prefix (rev p) (rev s).

Definition lowerChar (c : ascii) : ascii :=
  let n := nat_of_ascii c in
  if (Nat.leb 65 n && Nat.leb n 90)%bool then ascii_of_nat (n + 32) else c.

Fixpoint toLowerCase (s : string) : string :=
  match s with
  | EmptyString => EmptyString
  | String c r => String (lowerChar c) (toLowerCase r)
  end.

Definition isSpace (c : ascii) : bool :=
  let n := nat_of_ascii c in
  (Nat.eqb n 32 || (Nat.leb 9 n && Nat.leb n 13))%bool.

Fixpoint trimStart (s : string) : string :=
  match s with
  | String c r => if isSpace c then trimStart r else s
  | EmptyString => EmptyString
  end.

Definition trim (s : string) : string := rev (trimStart (rev (trimStart s))).

(** [s.replace(re, empty)] where [re] matches every single or double
    quotation mark (character codes 39 and 34). *)
Fixpoint stripQuotes (s : string) : string :=
  match s with
  | EmptyString => EmptyString
  | String c r =>
      if (Nat.eqb (nat_of_ascii c) 39 || Nat.eqb (nat_of_ascii c) 34)%bool
      then stripQuotes r
      else String c (stripQuotes r)
  end.

(** [s.substring(0, n)] *)
Definition substring0 (n : nat) (s : string) : string := String.substring 0 n s.

(** ** Numbers *)

(** The Number holding an array length (exact below 2^53). *)
Definition ofLength (n : nat) : float :=
  PrimFloat.of_uint63 (Uint63.of_Z (Z.of_nat n)).

(** [Math.round]: the integer nearest to [x], ties towards +infinity, that
    is, the floor of [x + 1/2] taken exactly.  A finite binary64 value is
    [v * 2^e]; the result is given by its integer value.  NaN and the
    infinities, which [Math.round] returns unchanged, do not arise from the
    quotients of this program and are sent to 0. *)
Definition Math_round (x : float) : Z :=
  match Prim2SF x with
  | S754_finite s m e =>
      let v := if s then Z.neg m else Z.pos m in
      if 0 <=? e then v * 2 ^ e
      else (2 * v + 2 ^ (- e)) / 2 ^ (1 - e)
  | _ => 0
  end.

End Js.

Import Js.

Declare Scope js_scope.
Notation "x <- c ;; k" := (Js.bind c (fun x => k))
  (at level 61, c at next level, right associativity) : js_scope.
Local Open Scope js_scope.

(** * Score *)

(** [total > 0 ? Math.round((passed / total) * 100) : 100], the expression
    shared by [scanDocument] and [scanMultipleUrls]. *)
Definition computeScore (passedLength total : nat) : Z :=
  if (0 <? total)%nat
  then Math_round
         (PrimFloat.mul (PrimFloat.div (ofLength passedLength) (ofLength total))
            (ofLength 100))
  else 100.

(** The specification's formula, [round(100 * passed / total)] on exact
    rationals, a tie going up: the floor of [(200 * passed + total) / (2 * total)]. *)
Definition specScore (passedLength total : nat) : Z :=
  if (0 <? total)%nat
  then (200 * Z.of_nat passedLength + Z.of_nat total) / (2 * Z.of_nat total)
  else 100.

(** * The platform *)

(** The DOM as far as the scanner and the crawler use it. *)
Class Host : Type := {
  Doc : Type;
  Element : Type;
  (** [doc.querySelectorAll(selector)] *)
  querySelectorAll : Doc -> string -> list Element;
  (** [doc.documentElement], possibly [null] *)
  documentElement : Doc -> option Element;
  (** [element.outerHTML] *)
  outerHTML : Element -> string;
  (** [element.getAttribute(name)] *)
  getAttribute : Element -> string -> option string;
  (** the document after [doc._url = pageUrl] *)
  attachUrl : Doc -> string -> Doc;
  (** [window.location.href]; [None] where [window] is not defined *)
  windowHref : option string;
  (** [new DOMParser().parseFromString(text, 'text/html')]; [None] where
      [DOMParser] is not defined *)
  DOMParser : option (string -> Doc);
  (** the document of [new JSDOM(text, { url })]; [None] when the import of
      jsdom fails *)
  JSDOM : option (string -> string -> Doc)
}.

(** * Data model *)

Inductive RuleType : Type := automated | manual.

Inductive Severity : Type := high | medium | low.

(** What a rule predicate returns: a boolean, an object
    [{passed, reason, howToFix}] (its [passed] field by truthiness), [null],
    or any other value (by truthiness; such a value has no [passed]). *)
Inductive CheckValue : Type :=
| VBool (b : bool)
| VObject (passed : bool) (reason howToFix : option string)
| VNull
| VOther (truthyValue : bool).

Record Rule `{Host} : Type := {
  r_id : string;
  r_category : string;
  r_description : string;
  r_requirements : list string;
  r_type : RuleType;
  r_severity : option Severity;
  r_globalCheck : option (Doc -> Completion CheckValue);
  r_selector : option string;
  r_check : option (Element -> Completion CheckValue)
}.

Record Violation : Type := {
  v_id : string;
  v_description : string;
  v_severity : option Severity;
  v_category : string;
  v_type : RuleType;
  v_requirements : list string;
  v_pageUrl : string;
  v_preview : option string;
  v_violationReason : option string;
  v_howToFix : option string
}.

(** An entry of [passed]; [p_pageUrl] is set by [scanMultipleUrls] only. *)
Record PassedCheck : Type := {
  p_id : string;
  p_description : string;
  p_severity : option Severity;
  p_category : string;
  p_type : RuleType;
  p_pageUrl : option string
}.

(** The object returned by [scanDocument] and [scanUrl]; [pr_error] is
    present on the error-shaped report of [scanUrl] only. *)
Record PageReport : Type := {
  pr_error : option string;
  pr_score : Z;
  pr_violations : list Violation;
  pr_passed : list PassedCheck;
  pr_totalChecks : nat;
  pr_pageUrl : string
}.

Inductive RuleOutcome : Type :=
| NoEntry
| ViolationEntry (v : Violation)
| PassedEntry (p : PassedCheck).

(** [violations.push(v)] or [passed.push(p)] *)
Definition pushOutcome (acc : list Violation * list PassedCheck) (o : RuleOutcome)
  : list Violation * list PassedCheck :=
  match o with
  | NoEntry => acc
  | ViolationEntry v => ((fst acc ++ [v])%list, snd acc)
  | PassedEntry p => (fst acc, (snd acc ++ [p])%list)
  end.

(** The message of the TypeError raised by reading a property of [null]. *)
Definition nullPropertyMessage (property : string) : string :=
  "Cannot read properties of null (reading '" ++ property ++ "')".

(** State of the loop over the elements a selector matches. *)
Record ElementsAcc : Type := {
  allPass : bool;
  preview : option string;
  violationReason : option string;
  howToFix : option string
}.

Definition passedEntry `{Host} (rule : Rule) : PassedCheck :=
  {| p_id := r_id rule; p_description := r_description rule;
     p_severity := r_severity rule; p_category := r_category rule;
     p_type := r_type rule; p_pageUrl := None |}.

Definition violationEntry `{Host} (rule : Rule) (pageUrl : string)
    (preview reason fixText : option string) : Violation :=
  {| v_id := r_id rule; v_description := r_description rule;
     v_severity := r_severity rule; v_category := r_category rule;
     v_type := r_type rule; v_requirements := r_requirements rule;
     v_pageUrl := pageUrl; v_preview := preview;
     v_violationReason := reason; v_howToFix := fixText |}.

(** [doc.documentElement ? doc.documentElement.outerHTML.substring(0, 1000)
    : 'Document Structure Missing'] *)
Definition documentPreview `{Host} (doc : Doc) : string :=
  match documentElement doc with
  | Some e => substring0 1000 (outerHTML e)
  | None => "Document Structure Missing"
  end.

Definition finishReport (pageUrl : string)
    (acc : list Violation * list PassedCheck) : PageReport :=
  let violations := fst acc in
  let passed := snd acc in
  let totalAutomated := (List.length violations + List.length passed)%nat in
  {| pr_error := None;
     pr_score := computeScore (List.length passed) totalAutomated;
     pr_violations := violations;
     pr_passed := passed;
     pr_totalChecks := totalAutomated;
     pr_pageUrl := pageUrl |}.

(** * URLs and the network *)

(** A parsed URL.  [u_site] is the serialisation up to the path (scheme,
    credentials, host and port); [u_origin] is scheme, host and port. *)
Record URL : Type := {
  u_site : string;
  u_origin : string;
  u_hostname : string;
  u_pathname : string;
  u_search : string;
  u_hash : string
}.

(** [url.toString()] *)
Definition toString (u : URL) : string :=
  u_site u ++ u_pathname u ++ u_search u ++ u_hash u.

(** [url.hash = ''] *)
Definition clearHash (u : URL) : URL :=
  {| u_site := u_site u; u_origin := u_origin u; u_hostname := u_hostname u;
     u_pathname := u_pathname u; u_search := u_search u; u_hash := "" |}.

(** What [await fetch(fetchUrl)] gives: a rejection, or a response with its
    [ok] flag, its status and the outcome of [await response.text()]. *)
Inductive FetchOutcome : Type :=
| Rejected (message : string)
| Response (ok : bool) (status : Z) (text : Completion string).

Class Net : Type := {
  (** [new URL(url)]; [None] when it throws *)
  newURL : string -> option URL;
  (** [new URL(href, base)]; [None] when it throws *)
  resolveURL : string -> string -> option URL;
  encodeURIComponent : string -> string;
  fetch : string -> FetchOutcome;
  (** [new Date().toISOString()] *)
  isoNow : string
}.

Definition parseURL `{Net} (url : string) : Completion URL :=
  match newURL url with
  | Some u => Normal u
  | None => Throw "Invalid URL"
  end.

(** [urlObj.hostname === 'localhost' || urlObj.hostname === '127.0.0.1'] *)
Definition isLocalhost (u : URL) : bool :=
  (String.eqb (u_hostname u) "localhost" || String.eqb (u_hostname u) "127.0.0.1")%bool.

Definition proxied `{Net} (url : string) : string :=
  "/api/proxy?url=" ++ encodeURIComponent url.

(** [response = await fetch(fetchUrl)], the throw on [!response.ok], and
    [await response.text()]. *)
Definition fetchText `{Net} (fetchUrl : string) : Completion string :=
  match fetch fetchUrl with
  | Rejected message => Throw message
  | Response ok _ text => if ok then text else Throw "Failed to fetch the URL"
  end.

(** The catch clause of [scanUrl]. *)
Definition errorReport (url message : string) : PageReport :=
  {| pr_error := Some message; pr_score := 0; pr_violations := [];
     pr_passed := []; pr_totalChecks := 0; pr_pageUrl := url |}.

(** * Multi-page aggregation

    [scanMultipleUrls] has the same text in the three copies of the
    scanner; it is given once, over the copy's [scanUrl]. *)

Record PageSummary : Type := {
  ps_url : string;
  ps_error : option string;
  ps_score : Z;
  ps_violationCount : nat;
  ps_passedCount : nat
}.

Inductive Status : Type := Compliant | PartiallyCompliant | NonCompliant.

(** [{...violation, affectedPages, occurrences}] *)
Record DedupedViolation : Type := {
  d_violation : Violation;
  d_affectedPages : list string;
  d_occurrences : nat
}.

Inductive ScanProgress : Type :=
| Scanning (scanned total : nat) (currentUrl : string)
| ScanCompleted (scanned total : nat).

Record AggregateReport : Type := {
  ar_score : Z;
  ar_status : Status;
  ar_violations : list DedupedViolation;
  ar_passed : list PassedCheck;
  ar_totalChecks : nat;
  ar_pageResults : list PageSummary;
  ar_totalPages : nat;
  ar_pagesWithViolations : nat;
  ar_totalViolationsBeforeDedup : nat;
  ar_timestamp : string
}.

Module Aggregation.

(** [{...violation, pageUrl: url}] *)
Definition withPageUrl (url : string) (v : Violation) : Violation :=
  {| v_id := v_id v; v_description := v_description v;
     v_severity := v_severity v; v_category := v_category v;
     v_type := v_type v; v_requirements := v_requirements v;
     v_pageUrl := url; v_preview := v_preview v;
     v_violationReason := v_violationReason v; v_howToFix := v_howToFix v |}.

(** [{...passed, pageUrl: url}] *)
Definition passedWithPageUrl (url : string) (p : PassedCheck) : PassedCheck :=
  {| p_id := p_id p; p_description := p_description p;
     p_severity := p_severity p; p_category := p_category p;
     p_type := p_type p; p_pageUrl := Some url |}.

(** The variables of the loop over [urls]; [progress] collects the
    arguments of the calls of [onProgress]. *)
Record ScanLoop : Type := {
  allViolations : list Violation;
  allPassed : list PassedCheck;
  pageResults : list PageSummary;
  scannedCount : nat;
  progress : list ScanProgress
}.

Definition scanLoopInit : ScanLoop :=
  {| allViolations := []; allPassed := []; pageResults := [];
     scannedCount := 0; progress := [] |}.

(** ** Deduplication *)

(** [`${violation.id}-${violation.description}`] *)
Definition violationKey (v : Violation) : string :=
  v_id v ++ "-" ++ v_description v.

(** [violationMap]: a [Map] keeps its entries in insertion order. *)
Definition ViolationMap : Type := list (string * DedupedViolation).

Definition mapHas (key : string) (m : ViolationMap) : bool :=
  existsb (fun kv => String.eqb (fst kv) key) m.

(** [array.includes(x)] *)
Definition includes (x : string) (l : list string) : bool :=
  existsb (String.eqb x) l.

(** The else branch: [existing] is updated in place. *)
Definition trackPage (pageUrl : string) (existing : DedupedViolation)
  : DedupedViolation :=
  if includes pageUrl (d_affectedPages existing) then existing
  else {| d_violation := d_violation existing;
          d_affectedPages := (d_affectedPages existing ++ [pageUrl])%list;
          d_occurrences := S (d_occurrences existing) |}.

Fixpoint mapUpdate (key : string) (f : DedupedViolation -> DedupedViolation)
    (m : ViolationMap) : ViolationMap :=
  match m with
  | [] => []
  | (k, d) :: rest =>
      if String.eqb k key then (k, f d) :: rest
      else (k, d) :: mapUpdate key f rest
  end.

(** The callback given to [allViolations.forEach]. *)
Definition dedupStep (m : ViolationMap) (violation : Violation) : ViolationMap :=
  let key := violationKey violation in
  if negb (mapHas key m)
  then (m ++ [(key, {| d_violation := violation;
                       d_affectedPages := [v_pageUrl violation];
                       d_occurrences := 1 |})])%list
  else mapUpdate key (trackPage (v_pageUrl violation)) m.

(** [uniqueViolations] *)
Definition dedupViolations (allViolations : list Violation)
  : list DedupedViolation :=
  List.map snd (fold_left dedupStep allViolations []).

(** ** The scan loop and the report *)

(** [status], from [allViolations.length] and [allPassed.length]. *)
Definition statusOf (violationCount passedCount : nat) : Status :=
  if (0 <? violationCount)%nat
  then if (passedCount <? violationCount)%nat then NonCompliant
       else PartiallyCompliant
  else Compliant.

Section Scan.
Context `{Net}.
Variable scanUrl : string -> Completion PageReport.

(** One iteration of [for (const url of urls)]. *)
Definition scanStep (total : nat) (st : ScanLoop) (url : string) : ScanLoop :=
  let progress' :=
    (progress st ++ [Scanning (scannedCount st) total url])%list in
  match scanUrl url with
  | Normal result =>
      {| allViolations :=
           (allViolations st
              ++ List.map (withPageUrl url) (pr_violations result))%list;
         allPassed :=
           (allPassed st
              ++ List.map (passedWithPageUrl url) (pr_passed result))%list;
         pageResults :=
           (pageResults st
              ++ [{| ps_url := url; ps_error := None;
                     ps_score := pr_score result;
                     ps_violationCount := List.length (pr_violations result);
                     ps_passedCount := List.length (pr_passed result) |}])%list;
         scannedCount := S (scannedCount st);
         progress := progress' |}
  | Throw message =>
      {| allViolations := allViolations st;
         allPassed := allPassed st;
         pageResults :=
           (pageResults st
              ++ [{| ps_url := url; ps_error := Some message; ps_score := 0;
                     ps_violationCount := 0; ps_passedCount := 0 |}])%list;
         scannedCount := S (scannedCount st);
         progress := progress' |}
  end.

Definition scanLoop (urls : list string) : ScanLoop :=
  fold_left (scanStep (List.length urls)) urls scanLoopInit.

Definition scanMultipleUrls (urls : list string)
  : AggregateReport * list ScanProgress :=
  let st := scanLoop urls in
  let totalChecks :=
    (List.length (allViolations st) + List.length (allPassed st))%nat in
  ({| ar_score := computeScore (List.length (allPassed st)) totalChecks;
      ar_status :=
        statusOf (List.length (allViolations st)) (List.length (allPassed st));
      ar_violations := dedupViolations (allViolations st);
      ar_passed := allPassed st;
      ar_totalChecks := totalChecks;
      ar_pageResults := pageResults st;
      ar_totalPages := List.length urls;
      ar_pagesWithViolations :=
        List.length
          (filter (fun p => (0 <? ps_violationCount p)%nat) (pageResults st));
      ar_totalViolationsBeforeDedup := List.length (allViolations st);
      ar_timestamp := isoNow |},
   (progress st
      ++ [ScanCompleted (scannedCount st) (List.length urls)])%list).

End Scan.
End Aggregation.

(** * The scanning engine, [dgaScanner.js] (second copy, lines 255-583) *)

Module Scanner.
Section Engine.
Context `{Host}.

(** The catalogue imported from [dgaRules.js]. *)
Variable dgaRules : list Rule.

(** [pageUrl || (typeof window !== 'undefined' && window.location.href) || ''] *)
Definition reportPageUrl (pageUrl : option string) : string :=
  orDefault (Js.or pageUrl windowHref) "".

(** [typeof checkResult === 'boolean' ? checkResult : checkResult?.passed],
    by truthiness. *)
Definition checkPassed (checkResult : CheckValue) : bool :=
  match checkResult with
  | VBool b => b
  | VObject passed _ _ => passed
  | VNull | VOther _ => false
  end.

(** [typeof checkResult === 'object' ? checkResult.reason : null] *)
Definition reasonOf (checkResult : CheckValue) : Completion (option string) :=
  match checkResult with
  | VObject _ reason _ => Normal reason
  | VNull => Throw (nullPropertyMessage "reason")
  | _ => Normal None
  end.

(** [typeof checkResult === 'object' ? checkResult.howToFix : null] *)
Definition howToFixOf (checkResult : CheckValue) : Completion (option string) :=
  match checkResult with
  | VObject _ _ fixText => Normal fixText
  | VNull => Throw (nullPropertyMessage "howToFix")
  | _ => Normal None
  end.

(** The [globalCheck] branch: the body of the [try] and its handler. *)
Definition evalGlobal (rule : Rule) (globalCheck : Doc -> Completion CheckValue)
    (doc : Doc) (pageUrl : option string) : RuleOutcome :=
  tryCatch
    (checkResult <- globalCheck doc ;;
     if checkPassed checkResult then Normal (PassedEntry (passedEntry rule))
     else
       reason <- reasonOf checkResult ;;
       fixText <- howToFixOf checkResult ;;
       Normal (ViolationEntry
         (violationEntry rule (reportPageUrl pageUrl)
            (Some (documentPreview doc))
            (Some (orDefault reason
                     ("Rule #" ++ r_id rule ++ " global check failed")))
            (Some (orDefault fixText
                     "Review requirements and update implementation to match DGA standards")))))
    (fun message =>
       ViolationEntry
         (violationEntry rule (reportPageUrl pageUrl)
            (Some ("Error during check: " ++ message))
            (Some ("Check failed with error: " ++ message))
            (Some "Review rule implementation and ensure proper DOM structure"))).

(** One call of the callback given to [elements.forEach]. *)
Definition elementStep (check : Element -> Completion CheckValue)
    (acc : ElementsAcc) (element : Element) : ElementsAcc :=
  match check element with
  | Throw _ =>
      {| allPass := false; preview := preview acc;
         violationReason := violationReason acc; howToFix := howToFix acc |}
  | Normal checkResult =>
      if checkPassed checkResult then acc
      else
        let preview' :=
          if truthy (preview acc) then preview acc
          else Some (substring0 1000 (outerHTML element)) in
        match checkResult with
        | VObject _ reason fixText =>
            {| allPass := false; preview := preview';
               violationReason := Js.or (violationReason acc) reason;
               howToFix := Js.or (howToFix acc) fixText |}
        | _ =>
            (* for [null] the read of [checkResult.reason] is either skipped
               by [||] or throws into the handler: nothing else changes *)
            {| allPass := false; preview := preview';
               violationReason := violationReason acc; howToFix := howToFix acc |}
        end
  end.

(** The selector branch. *)
Definition evalElements (rule : Rule) (selector : string)
    (check : Element -> Completion CheckValue)
    (doc : Doc) (pageUrl : option string) : RuleOutcome :=
  let elements := querySelectorAll doc selector in
  let init := {| allPass := true; preview := None;
                 violationReason := None; howToFix := None |} in
  let final :=
    if (0 <? List.length elements)%nat
    then fold_left (elementStep check) elements init
    else init in
  if allPass final then PassedEntry (passedEntry rule)
  else ViolationEntry
         (violationEntry rule (reportPageUrl pageUrl) (preview final)
            (Some (orDefault (violationReason final)
                     ("Rule #" ++ r_id rule ++ " check failed")))
            (Some (orDefault (howToFix final)
                     "Review requirements and update implementation to match DGA standards"))).

(** The callback given to [dgaRules.forEach]. *)
Definition evalRule (doc : Doc) (pageUrl : option string) (rule : Rule)
  : RuleOutcome :=
  match r_type rule with
  | manual => NoEntry
  | automated =>
      match r_globalCheck rule with
      | Some globalCheck => evalGlobal rule globalCheck doc pageUrl
      | None =>
          match r_selector rule, r_check rule with
          | Some (String c s), Some check =>
              evalElements rule (String c s) check doc pageUrl
          | _, _ => NoEntry
          end
      end
  end.

(** [if (pageUrl) { doc._url = pageUrl; }]: the document the predicates see. *)
Definition annotate (doc : Doc) (pageUrl : option string) : Doc :=
  match pageUrl with
  | Some (String c s) => attachUrl doc (String c s)
  | _ => doc
  end.

Definition scanDocument (doc : Doc) (pageUrl : option string) : PageReport :=
  let doc' := annotate doc pageUrl in
  finishReport (reportPageUrl pageUrl)
    (fold_left (fun acc rule => pushOutcome acc (evalRule doc' pageUrl rule))
       dgaRules ([], [])).

Context `{Net}.

(** The document of the response: [DOMParser] where it is defined, jsdom
    otherwise. *)
Definition parseDocument (text url : string) : Completion Doc :=
  match DOMParser, JSDOM with
  | Some parse, _ => Normal (parse text)
  | None, Some jsdom => Normal (jsdom text url)
  | None, None => Throw "DOMParser not available and JSDOM failed"
  end.

Definition scanUrl (url : string) : Completion PageReport :=
  Normal
    (tryCatch
       (urlObj <- parseURL url ;;
        let isNode := match windowHref with None => true | Some _ => false end in
        let fetchUrl :=
          if isNode then url
          else if isLocalhost urlObj then url else proxied url in
        text <- fetchText fetchUrl ;;
        doc <- parseDocument text url ;;
        Normal (scanDocument doc (Some url)))
       (errorReport url)).

Definition scanMultipleUrls (urls : list string)
  : AggregateReport * list ScanProgress :=
  Aggregation.scanMultipleUrls scanUrl urls.

End Engine.
End Scanner.

(** * The copy at [src/utils/dgaScanner.js], lines 1-254

    It has no handler around the rule predicates and reads
    [window.location.href] unguarded. *)

Module ScannerSrc.
Section Engine.
Context `{Host} `{Net}.
Variable dgaRules : list Rule.

(** [pageUrl || window.location.href] *)
Definition reportPageUrl (pageUrl : option string) : Completion string :=
  match pageUrl, windowHref with
  | Some (String c s), _ => Normal (String c s)
  | _, Some href => Normal href
  | _, None => Throw "window is not defined"
  end.

(** Truthiness of the value a predicate returns. *)
Definition valueTruthy (checkResult : CheckValue) : bool :=
  match checkResult with
  | VBool b => b
  | VObject _ _ _ => true
  | VNull => false
  | VOther t => t
  end.

Definition evalGlobal (rule : Rule) (globalCheck : Doc -> Completion CheckValue)
    (doc : Doc) (pageUrl : option string) : Completion RuleOutcome :=
  result <- globalCheck doc ;;
  if valueTruthy result then Normal (PassedEntry (passedEntry rule))
  else
    url <- reportPageUrl pageUrl ;;
    Normal (ViolationEntry
              (violationEntry rule url (Some (documentPreview doc)) None None)).

(** One call of the callback given to [elements.forEach]; the state is
    [(allPass, preview)]. *)
Definition elementStep (check : Element -> Completion CheckValue)
    (acc : Completion (bool * option string)) (element : Element)
  : Completion (bool * option string) :=
  st <- acc ;;
  result <- check element ;;
  if valueTruthy result then Normal st
  else Normal (false,
               if truthy (snd st) then snd st
               else Some (substring0 1000 (outerHTML element))).

Definition evalElements (rule : Rule) (selector : string)
    (check : Element -> Completion CheckValue)
    (doc : Doc) (pageUrl : option string) : Completion RuleOutcome :=
  final <- fold_left (elementStep check) (querySelectorAll doc selector)
             (Normal (true, None)) ;;
  if fst final then Normal (PassedEntry (passedEntry rule))
  else
    url <- reportPageUrl pageUrl ;;
    Normal (ViolationEntry (violationEntry rule url (snd final) None None)).

Definition evalRule (doc : Doc) (pageUrl : option string) (rule : Rule)
  : Completion RuleOutcome :=
  match r_type rule with
  | manual => Normal NoEntry
  | automated =>
      match r_globalCheck rule with
      | Some globalCheck => evalGlobal rule globalCheck doc pageUrl
      | None =>
          match r_selector rule, r_check rule with
          | Some (String c s), Some check =>
              evalElements rule (String c s) check doc pageUrl
          | _, _ => Normal NoEntry
          end
      end
  end.

(** [doc._url] is set after the loop, so the predicates see [doc] as given. *)
Definition scanDocument (doc : Doc) (pageUrl : option string)
  : Completion PageReport :=
  acc <- fold_left
           (fun acc rule =>
              a <- acc ;;
              o <- evalRule doc pageUrl rule ;;
              Normal (pushOutcome a o))
           dgaRules (Normal ([], [])) ;;
  url <- reportPageUrl pageUrl ;;
  Normal (finishReport url acc).

Definition parseDocument (text : string) : Completion Doc :=
  match DOMParser with
  | Some parse => Normal (parse text)
  | None => Throw "DOMParser is not defined"
  end.

Definition scanUrl (url : string) : Completion PageReport :=
  Normal
    (tryCatch
       (urlObj <- parseURL url ;;
        let fetchUrl := if isLocalhost urlObj then url else proxied url in
        html <- fetchText fetchUrl ;;
        doc <- parseDocument html ;;
        scanDocument doc (Some url))
       (errorReport url)).

Definition scanMultipleUrls (urls : list string)
  : AggregateReport * list ScanProgress :=
  Aggregation.scanMultipleUrls scanUrl urls.

End Engine.
End ScannerSrc.

(** * The copy that follows the catalogue, [dgaRules.js] lines 1323-1603

    It catches what the predicates throw and takes their result by
    truthiness. *)

Module ScannerCatalogue.
Section Engine.
Context `{Host} `{Net}.
Variable dgaRules : list Rule.

Definition evalGlobal (rule : Rule) (globalCheck : Doc -> Completion CheckValue)
    (doc : Doc) (pageUrl : option string) : RuleOutcome :=
  let result :=
    tryCatch (r <- globalCheck doc ;; Normal (ScannerSrc.valueTruthy r))
      (fun _ => false) in
  if result then PassedEntry (passedEntry rule)
  else ViolationEntry
         (violationEntry rule (Scanner.reportPageUrl pageUrl)
            (Some (documentPreview doc)) None None).

Definition elementStep (check : Element -> Completion CheckValue)
    (acc : bool * option string) (element : Element) : bool * option string :=
  match check element with
  | Throw _ => (false, snd acc)
  | Normal result =>
      if ScannerSrc.valueTruthy result then acc
      else (false,
            if truthy (snd acc) then snd acc
            else Some (substring0 1000 (outerHTML element)))
  end.

Definition evalElements (rule : Rule) (selector : string)
    (check : Element -> Completion CheckValue)
    (doc : Doc) (pageUrl : option string) : RuleOutcome :=
  let elements := querySelectorAll doc selector in
  let final :=
    if (0 <? List.length elements)%nat
    then fold_left (elementStep check) elements (true, None)
    else (true, None) in
  if fst final then PassedEntry (passedEntry rule)
  else ViolationEntry
         (violationEntry rule (Scanner.reportPageUrl pageUrl) (snd final)
            None None).

Definition evalRule (doc : Doc) (pageUrl : option string) (rule : Rule)
  : RuleOutcome :=
  match r_type rule with
  | manual => NoEntry
  | automated =>
      match r_globalCheck rule with
      | Some globalCheck => evalGlobal rule globalCheck doc pageUrl
      | None =>
          match r_selector rule, r_check rule with
          | Some (String c s), Some check =>
              evalElements rule (String c s) check doc pageUrl
          | _, _ => NoEntry
          end
      end
  end.

Definition scanDocument (doc : Doc) (pageUrl : option string) : PageReport :=
  let doc' := Scanner.annotate doc pageUrl in
  finishReport (Scanner.reportPageUrl pageUrl)
    (fold_left (fun acc rule => pushOutcome acc (evalRule doc' pageUrl rule))
       dgaRules ([], [])).

(** [parser.parseFromString(html, 'text/html')] names a variable that this
    copy does not declare (the body is in [text]): once the response is
    read, the call always throws. *)
Definition scanUrl (url : string) : Completion PageReport :=
  Normal
    (tryCatch
       (urlObj <- parseURL url ;;
        let isNode := match windowHref with None => true | Some _ => false end in
        let fetchUrl :=
          if isNode then url
          else if isLocalhost urlObj then url else proxied url in
        text <- fetchText fetchUrl ;;
        parse <- match DOMParser with
                 | Some parse => Normal parse
                 | None => Throw "DOMParser is not defined"
                 end ;;
        doc <- (Throw "html is not defined" : Completion Doc) ;;
        Normal (scanDocument doc (Some url)))
       (errorReport url)).

Definition scanMultipleUrls (urls : list string)
  : AggregateReport * list ScanProgress :=
  Aggregation.scanMultipleUrls scanUrl urls.

End Engine.
End ScannerCatalogue.

(** * The crawler, [src/utils/webCrawler.js] *)

Module Crawler.

Definition nonPageExtensions : list string :=
  [ ".jpg"; ".jpeg"; ".png"; ".gif"; ".svg"; ".webp";
    ".pdf"; ".doc"; ".docx"; ".xls"; ".xlsx";
    ".zip"; ".tar"; ".gz";
    ".mp3"; ".mp4"; ".avi"; ".mov";
    ".css"; ".js"; ".json"; ".xml" ].

Definition isNonPageResource (url : string) : bool :=
  let urlLower := toLowerCase url in
  existsb (fun ext => endsWith urlLower ext) nonPageExtensions.

(** [set.has(x)] on a [Set] of strings kept in insertion order. *)
Definition has (s : list string) (x : string) : bool := existsb (String.eqb x) s.

(** [set.add(x)] *)
Definition add (s : list string) (x : string) : list string :=
  if has s x then s else (s ++ [x])%list.

Inductive CrawlProgress : Type :=
| Crawling (discovered visited : nat) (currentUrl : string)
| CrawlCompleted (discovered visited : nat).

Record CrawlState : Type := {
  discoveredUrls : list string;
  visitedUrls : list string;
  queue : list (string * Z);
  progress : list CrawlProgress
}.

Section Crawl.
Context `{Host} `{Net}.

(** The callback given to [anchors.forEach]: the link it adds, if any. *)
Definition linkOf (currentUrl baseOrigin : string) (anchor : Element)
  : option string :=
  match getAttribute anchor "href" with
  | Some (String c0 s0) =>
      let href := trim (stripQuotes (String c0 s0)) in
      if (String.eqb href "" || startsWith href "mailto:"
          || startsWith href "tel:" || startsWith href "javascript:"
          || String.eqb href "#")%bool
      then None
      else
        match resolveURL href currentUrl with
        | None => None
        | Some absoluteUrl =>
            if negb (String.eqb (u_origin absoluteUrl) baseOrigin) then None
            else
              let normalizedUrl := toString (clearHash absoluteUrl) in
              if isNonPageResource normalizedUrl then None
              else Some normalizedUrl
        end
  | _ => None
  end.

Definition extractLinks (html currentUrl baseOrigin : string)
  : Completion (list string) :=
  match DOMParser with
  | None => Throw "DOMParser is not defined"
  | Some parse =>
      let doc := parse html in
      let anchors := querySelectorAll doc "a[href]" in
      Normal
        (fold_left
           (fun links anchor =>
              match linkOf currentUrl baseOrigin anchor with
              | Some link => add links link
              | None => links
              end)
           anchors [])
  end.

Variable baseOrigin : string.
Variable maxPages maxDepth : Z.

Definition size (s : list string) : Z := Z.of_nat (List.length s).

(** [queue.length > 0 && discoveredUrls.size < maxPages] *)
Definition loopCond (s : CrawlState) : bool :=
  ((0 <? List.length (queue s))%nat && (size (discoveredUrls s) <? maxPages))%bool.

(** One iteration of [for (const link of links)], on
    [(discoveredUrls, queue)]. *)
Definition addLink (depth : Z) (dq : list string * list (string * Z))
    (link : string) : list string * list (string * Z) :=
  if (negb (has (fst dq) link) && (size (fst dq) <? maxPages))%bool
  then (add (fst dq) link, (snd dq ++ [(link, depth + 1)])%list)
  else dq.

(** The body of the [try]: [None] stands for the [continue] on a response
    that is not [ok]. *)
Definition fetchLinks (url : string) : Completion (option (list string)) :=
  urlObj <- parseURL url ;;
  let fetchUrl := if isLocalhost urlObj then url else proxied url in
  match fetch fetchUrl with
  | Rejected message => Throw message
  | Response ok _ text =>
      if negb ok then Normal None
      else
        html <- text ;;
        links <- extractLinks html url baseOrigin ;;
        Normal (Some links)
  end.

(** The body of the [while] loop. *)
Definition crawlIteration (s : CrawlState) : CrawlState :=
  match queue s with
  | [] => s
  | (url, depth) :: rest =>
      if (has (visitedUrls s) url || (maxDepth <? depth))%bool
      then {| discoveredUrls := discoveredUrls s; visitedUrls := visitedUrls s;
              queue := rest; progress := progress s |}
      else
        let visited' := add (visitedUrls s) url in
        let progress' :=
          (progress s
             ++ [Crawling (List.length (discoveredUrls s))
                   (List.length visited') url])%list in
        match fetchLinks url with
        | Normal (Some links) =>
            let dq := fold_left (addLink depth) links (discoveredUrls s, rest) in
            {| discoveredUrls := fst dq; visitedUrls := visited';
               queue := snd dq; progress := progress' |}
        | _ =>
            {| discoveredUrls := discoveredUrls s; visitedUrls := visited';
               queue := rest; progress := progress' |}
        end
  end.

(** The [while] loop; [None] when the fuel runs out before the condition
    fails. *)
Fixpoint crawlLoop (fuel : nat) (s : CrawlState) : option CrawlState :=
  if loopCond s then
    match fuel with
    | O => None
    | S fuel' => crawlLoop fuel' (crawlIteration s)
    end
  else Some s.

(** The state after [n] evaluations of the loop test. *)
Fixpoint crawlRun (n : nat) (s : CrawlState) : CrawlState :=
  match n with
  | O => s
  | S n' => if loopCond s then crawlRun n' (crawlIteration s) else s
  end.

End Crawl.

Section Website.
Context `{Host} `{Net}.

Definition crawlInit (baseUrl : string) : CrawlState :=
  {| discoveredUrls := add [] baseUrl; visitedUrls := [];
     queue := [(baseUrl, 0)]; progress := [] |}.

(** [crawlWebsite(baseUrl, { maxPages, maxDepth, onProgress })]: the array
    it resolves to and the arguments of the calls of [onProgress], or the
    error it rejects with; [None] when the fuel runs out. *)
Definition crawlWebsite (fuel : nat) (baseUrl : string) (maxPages maxDepth : Z)
  : option (Completion (list string * list CrawlProgress)) :=
  match newURL baseUrl with
  | None => Some (Throw "Invalid URL")
  | Some urlObj =>
      let baseOrigin := u_origin urlObj in
      match crawlLoop baseOrigin maxPages maxDepth fuel (crawlInit baseUrl) with
      | None => None
      | Some s =>
          Some (Normal
                  (discoveredUrls s,
                   (progress s
                      ++ [CrawlCompleted (List.length (discoveredUrls s))
                            (List.length (visitedUrls s))])%list))
      end
  end.

End Website.
End Crawler.

(** * A small site, for the examples

    Documents are given by the [href]s of their anchors, in document order;
    a response body lists them separated by spaces.  The site lives on
    [localhost], so every fetch is direct. *)

Module Demo.

Fixpoint splitAt (sep : ascii) (s : string) : string * option string :=
  match s with
  | EmptyString => (EmptyString, None)
  | String c r =>
      if Ascii.eqb c sep then (EmptyString, Some r)
      else let (a, b) := splitAt sep r in (String c a, b)
  end.

Fixpoint words (fuel : nat) (s : string) : list string :=
  match fuel with
  | O => []
  | S fuel' =>
      match splitAt " " s with
      | (w, None) => if String.eqb w "" then [] else [w]
      | (w, Some r) =>
          if String.eqb w "" then words fuel' r else w :: words fuel' r
      end
  end.

Definition parseAnchors (text : string) : list string :=
  words (S (String.length text)) text.

#[global] Instance host : Host := {|
  Doc := list string;
  Element := string;
  querySelectorAll := fun doc selector =>
    if String.eqb selector "a[href]" then doc else [];
  documentElement := fun _ => None;
  outerHTML := fun href => "<a href=" ++ href ++ "></a>";
  getAttribute := fun href name =>
    if String.eqb name "href" then Some href else None;
  attachUrl := fun doc _ => doc;
  windowHref := Some "http://localhost/";
  DOMParser := Some parseAnchors;
  JSDOM := None
|}.

Definition site : string := "http://localhost".

(** The URL parser on the absolute URLs of the site. *)
Definition parseLocal (url : string) : option URL :=
  if startsWith url (site ++ "/") then
    let rest := String.substring (String.length site)
                  (String.length url - String.length site) url in
    let (beforeHash, hash) := splitAt "#" rest in
    let (path, search) := splitAt "?" beforeHash in
    Some {| u_site := site; u_origin := site; u_hostname := "localhost";
            u_pathname := path;
            u_search := match search with Some q => "?" ++ q | None => "" end;
            u_hash := match hash with Some h => "#" ++ h | None => "" end |}
  else None.

Definition home : string := "http://localhost/".
Definition about : string := "http://localhost/about".
Definition report : string := "http://localhost/report.pdf?download=1".
Definition down : string := "http://localhost/down".
Definition handbook : string := "http://localhost/handbook.pdf".
Definition team : string := "http://localhost/about#team".

Fixpoint anchors (n : nat) : string :=
  match n with
  | O => ""
  | S n' => "http://localhost/about " ++ anchors n'
  end.

Definition serve (url : string) : FetchOutcome :=
  if String.eqb url home then Response true 200 (Normal (about ++ " " ++ report))
  else if String.eqb url about then Response true 200 (Normal home)
  else if String.eqb url report then Response true 200 (Normal "")
  else if String.eqb url down then Response false 500 (Normal "")
  else if startsWith url "http://localhost/full/"
       then Response true 200 (Normal (anchors 27))
  else if String.eqb url "http://localhost/part"
       then Response true 200 (Normal (anchors 16))
  else Rejected "Failed to fetch".

#[global] Instance net : Net := {|
  newURL := parseLocal;
  resolveURL := fun href _ => parseLocal href;
  encodeURIComponent := fun s => s;
  fetch := serve;
  isoNow := "2025-01-01T00:00:00.000Z"
|}.

Definition decimal (n : nat) : string :=
  NilEmpty.string_of_uint (Nat.to_uint n).

Definition mkRule (id : string) (type : RuleType)
    (globalCheck : option (Doc -> Completion CheckValue))
    (selector : option string)
    (check : option (Element -> Completion CheckValue)) : Rule :=
  {| r_id := id; r_category := "General"; r_description := "Rule " ++ id;
     r_requirements := []; r_type := type; r_severity := Some high;
     r_globalCheck := globalCheck; r_selector := selector; r_check := check |}.

(** A catalogue of 46 automated rules, as many as [dgaRules.js] has: rule
    [i] holds of a document with more than [i] anchors. *)
Definition countingRules : list Rule :=
  List.map
    (fun i =>
       mkRule (decimal i) automated
         (Some (fun doc => Normal (VBool (i <? List.length doc)%nat)))
         None None)
    (seq 0 46).

(** Twenty pages: nineteen satisfy 27 rules, the last one 16. *)
Definition twentyPages : list string :=
  List.app
    (List.map (fun i => "http://localhost/full/" ++ decimal i) (seq 1 19))
    ["http://localhost/part"].

(** A catalogue of three rules: a manual one, one on images (the site has
    none), and one asking for more than two anchors. *)
Definition manualRule : Rule := mkRule "15" manual None None None.

Definition imageCheck : Element -> Completion CheckValue :=
  fun _ => Normal (VBool false).

Definition imageRule : Rule :=
  mkRule "20" automated None (Some "img") (Some imageCheck).

Definition anchorsRule : Rule :=
  mkRule "40" automated
    (Some (fun doc => Normal (VBool (2 <? List.length doc)%nat))) None None.

Definition smallRules : list Rule := [manualRule; imageRule; anchorsRule].

(** A catalogue whose only predicate throws, as rule 41 of [dgaRules.js]
    does on a document with a link inside an inline SVG, where [a.href] is
    not a string. *)
Definition throwingRules : list Rule :=
  [ mkRule "41" automated
      (Some (fun _ => Throw "a.href.includes is not a function"))
      None None ].

End Demo.

(** * Notions used by the statements *)

(** [computeScore] and the exact formula agree for every number of passed
    checks out of [total]. *)
Definition scoresAgree (total : nat) : bool :=
  forallb (fun p => computeScore p total =? specScore p total) (seq 0 (S total)).

(** The violations and the passed checks that a page adds to the running
    totals of [scanMultipleUrls]. *)
Definition pageViolations (scanUrl : string -> Completion PageReport)
    (url : string) : list Violation :=
  match scanUrl url with
  | Normal result => List.map (Aggregation.withPageUrl url) (pr_violations result)
  | Throw _ => []
  end.

Definition pagePassed (scanUrl : string -> Completion PageReport)
    (url : string) : list PassedCheck :=
  match scanUrl url with
  | Normal result =>
      List.map (Aggregation.passedWithPageUrl url) (pr_passed result)
  | Throw _ => []
  end.

(** The [PageSummary] that [scanMultipleUrls] records for a page. *)
Definition summaryOf (scanUrl : string -> Completion PageReport)
    (url : string) : PageSummary :=
  match scanUrl url with
  | Normal result =>
      {| ps_url := url; ps_error := None; ps_score := pr_score result;
         ps_violationCount := List.length (pr_violations result);
         ps_passedCount := List.length (pr_passed result) |}
  | Throw message =>
      {| ps_url := url; ps_error := Some message; ps_score := 0;
         ps_violationCount := 0; ps_passedCount := 0 |}
  end.

(** What an outcome adds to [violations] and to [passed]. *)
Definition violationsOf (o : RuleOutcome) : list Violation :=
  match o with
  | ViolationEntry v => [v]
  | _ => []
  end.

Definition passedOf (o : RuleOutcome) : list PassedCheck :=
  match o with
  | PassedEntry p => [p]
  | _ => []
  end.

Definition keyIs (key : string) (v : Violation) : bool :=
  String.eqb (Aggregation.violationKey v) key.

(** The elements of a list, each at its first occurrence. *)
Definition distinct (l : list string) : list string :=
  fold_left Crawler.add l [].

(** The pages of the violations of [vs] that have the key [key], each page
    once, in order of appearance. *)
Definition pagesOfKey (key : string) (vs : list Violation) : list string :=
  distinct (List.map v_pageUrl (filter (keyIs key) vs)).

(** The number of violations of [vs] that have the key [key]. *)
Definition occurrencesOfKey (key : string) (vs : list Violation) : nat :=
  List.length (filter (keyIs key) vs).

Definition dedupKey (d : DedupedViolation) : string :=
  Aggregation.violationKey (d_violation d).

(** What holds of [violationMap] once the violations [vs] are processed. *)
Definition MapFor (vs : list Violation) (m : Aggregation.ViolationMap) : Prop :=
  List.map fst m = distinct (List.map Aggregation.violationKey vs)
  /\ Forall
       (fun kv =>
          dedupKey (snd kv) = fst kv
          /\ find (keyIs (fst kv)) vs = Some (d_violation (snd kv))
          /\ d_affectedPages (snd kv) = pagesOfKey (fst kv) vs
          /\ d_occurrences (snd kv) = List.length (d_affectedPages (snd kv)))
       m.

(** The reading of the specification under which every further violation
    with a known key increments [occurrences]: each entry counts the
    violations that have its key. *)
Definition CountsEveryOccurrence (vs : list Violation)
    (unique : list DedupedViolation) : Prop :=
  Forall (fun d => d_occurrences d = occurrencesOfKey (dedupKey d) vs) unique.

(** What the crawl loop keeps true of its queue: queued pages are
    discovered, no page is queued twice, and visited pages are discovered
    and no longer queued. *)
Definition QueueInv (s : Crawler.CrawlState) : Prop :=
  (forall url depth,
     In (url, depth) (Crawler.queue s) -> In url (Crawler.discoveredUrls s))
  /\ NoDup (List.map fst (Crawler.queue s))
  /\ (forall url,
        In url (Crawler.visitedUrls s) ->
        In url (Crawler.discoveredUrls s)
        /\ ~ In url (List.map fst (Crawler.queue s))).

(** A discovered page that is not visited and is queued beyond [maxDepth]
    only. *)
Definition Blocked (maxDepth : Z) (url : string) (s : Crawler.CrawlState) : Prop :=
  In url (Crawler.discoveredUrls s)
  /\ ~ In url (Crawler.visitedUrls s)
  /\ forall depth, In (url, depth) (Crawler.queue s) -> maxDepth < depth.

(** The path ends, in lower case, with one of the non-page extensions. *)
Definition pathHasNonPageExtension (u : URL) : bool :=
  existsb (fun ext => endsWith (toLowerCase (u_pathname u)) ext)
    Crawler.nonPageExtensions.

(** The measure of the crawl loop: twice the room left in [discoveredUrls]
    plus the length of the queue. *)
Definition crawlMeasure (maxPages : Z) (s : Crawler.CrawlState) : nat :=
  (2 * Z.to_nat (maxPages - Crawler.size (Crawler.discoveredUrls s))
   + List.length (Crawler.queue s))%nat.

(** ** Notions for the further properties *)

(** The rules that [scanDocument] evaluates: automated, with a
    [globalCheck], or else with a non-empty selector and a [check]. *)
Definition evaluable `{Host} (rule : Rule) : bool :=
  match r_type rule with
  | manual => false
  | automated =>
      match r_globalCheck rule, r_selector rule, r_check rule with
      | Some _, _, _ => true
      | None, Some (String _ _), Some _ => true
      | _, _, _ => false
      end
  end.

Definition isAutomated `{Host} (rule : Rule) : bool :=
  match r_type rule with
  | automated => true
  | manual => false
  end.

(** The element predicate returns, and what it returns counts as passed. *)
Definition elementPasses `{Host} (check : Element -> Completion CheckValue)
    (element : Element) : bool :=
  match check element with
  | Normal value => Scanner.checkPassed value
  | Throw _ => false
  end.

(** The element predicate returns a value that does not count as passed. *)
Definition elementFails `{Host} (check : Element -> Completion CheckValue)
    (element : Element) : bool :=
  match check element with
  | Normal value => negb (Scanner.checkPassed value)
  | Throw _ => false
  end.

(** The shape of the report that [scanUrl] returns on a failure. *)
Definition errorShaped (url : string) (report : PageReport) : Prop :=
  exists message, report = errorReport url message.

(** The calls of [onProgress] before the pages, numbered from [start]. *)
Fixpoint scanningEvents (start total : nat) (urls : list string)
  : list ScanProgress :=
  match urls with
  | [] => []
  | url :: rest => Scanning start total url :: scanningEvents (S start) total rest
  end.

(** The URLs announced by the progress events of a crawl. *)
Definition announcedUrls (events : list Crawler.CrawlProgress) : list string :=
  flat_map
    (fun event =>
       match event with
       | Crawler.Crawling _ _ url => [url]
       | Crawler.CrawlCompleted _ _ => []
       end)
    events.




(** The depths of the queue never decrease and span at most one level. *)
Fixpoint depthsFrom (low : Z) (queue : list (string * Z)) : Prop :=
  match queue with
  | [] => True
  | (_, depth) :: rest => low <= depth /\ depthsFrom depth rest
  end.

Definition BreadthFirst (queue : list (string * Z)) : Prop :=
  match queue with
  | [] => True
  | (_, first) :: rest =>
      0 <= first /\ depthsFrom first rest
      /\ forall url depth, In (url, depth) rest -> depth <= first + 1
  end.

(** A violation without the fields [violationReason] and [howToFix], which
    only the second copy of [dgaScanner.js] sets. *)
Definition withoutReasons (v : Violation) : Violation :=
  {| v_id := v_id v; v_description := v_description v;
     v_severity := v_severity v; v_category := v_category v;
     v_type := v_type v; v_requirements := v_requirements v;
     v_pageUrl := v_pageUrl v; v_preview := v_preview v;
     v_violationReason := None; v_howToFix := None |}.

(** The predicates of the rule return booleans on the document and on
    every element. *)
Definition BooleanRule `{Host} (doc : Doc) (rule : Rule) : Prop :=
  (forall globalCheck, r_globalCheck rule = Some globalCheck ->
     exists b, globalCheck doc = Normal (VBool b))
  /\ (forall check element, r_check rule = Some check ->
        exists b, check element = Normal (VBool b)).

(** ** Further examples on the small site *)

Module Sample.

(** A rule on the anchors of a page: their [href] must lead to the page
    [about]. *)
Definition linkCheck : Element -> Completion CheckValue :=
  fun href => Normal (VBool (startsWith href Demo.about)).

Definition linkRule : Rule :=
  Demo.mkRule "14" automated None (Some "a[href]") (Some linkCheck).

Definition throwingCheck : Doc -> Completion CheckValue :=
  fun _ => Throw "a.href.includes is not a function".

Definition throwingRule : Rule :=
  Demo.mkRule "41" automated (Some throwingCheck) None None.

End Sample.

(** ** The comparison with a baseline, [src/pages/DGACompliance.jsx]

    The part of [handleScan] that, in comparison mode, removes from the
    result the violations that the baseline page has too. *)

Module Ui.

(** The result of the scan: a page report (single mode) or an aggregate
    report (full mode). *)
Inductive ScanResult : Type :=
| SinglePage (report : PageReport)
| FullSite (report : AggregateReport).

(** What [setReport] receives: the result, with the fields
    [comparisonMode] and [baselineFiltered] when the filter was applied. *)
Record Shown : Type := {
  result : ScanResult;
  comparisonMode : bool;
  baselineFiltered : option nat
}.

(** [new Set(baselineResult.violations.map(v => v.id))], or the empty set
    when comparison mode is off. *)
Definition baselineViolationIds (comparison : bool) (baseline : PageReport)
  : list string :=
  if comparison then distinct (List.map v_id (pr_violations baseline)) else [].

(** The [id]s of [result.violations]. *)
Definition violationIds (r : ScanResult) : list string :=
  match r with
  | SinglePage report => List.map v_id (pr_violations report)
  | FullSite report =>
      List.map (fun d => v_id (d_violation d)) (ar_violations report)
  end.

(** [{...result, violations: result.violations.filter(v =>
    !baselineViolationIds.has(v.id))}] *)
Definition withoutIds (ids : list string) (r : ScanResult) : ScanResult :=
  match r with
  | SinglePage report =>
      SinglePage
        {| pr_error := pr_error report; pr_score := pr_score report;
           pr_violations :=
             filter (fun v => negb (Crawler.has ids (v_id v)))
               (pr_violations report);
           pr_passed := pr_passed report;
           pr_totalChecks := pr_totalChecks report;
           pr_pageUrl := pr_pageUrl report |}
  | FullSite report =>
      FullSite
        {| ar_score := ar_score report; ar_status := ar_status report;
           ar_violations :=
             filter (fun d => negb (Crawler.has ids (v_id (d_violation d))))
               (ar_violations report);
           ar_passed := ar_passed report;
           ar_totalChecks := ar_totalChecks report;
           ar_pageResults := ar_pageResults report;
           ar_totalPages := ar_totalPages report;
           ar_pagesWithViolations := ar_pagesWithViolations report;
           ar_totalViolationsBeforeDedup := ar_totalViolationsBeforeDedup report;
           ar_timestamp := ar_timestamp report |}
  end.

Definition applyBaseline (comparison : bool) (baseline : PageReport)
    (r : ScanResult) : Shown :=
  let ids := baselineViolationIds comparison baseline in
  if (comparison && (0 <? List.length ids)%nat)%bool
  then
    let filtered := withoutIds ids r in
    {| result := filtered; comparisonMode := true;
       baselineFiltered :=
         Some (List.length (violationIds r) - List.length (violationIds filtered))%nat |}
  else {| result := r; comparisonMode := false; baselineFiltered := None |}.

(** The score and the list of passed checks of a result. *)
Definition scoreOf (r : ScanResult) : Z :=
  match r with
  | SinglePage report => pr_score report
  | FullSite report => ar_score report
  end.

Definition passedOfResult (r : ScanResult) : list PassedCheck :=
  match r with
  | SinglePage report => pr_passed report
  | FullSite report => ar_passed report
  end.

End Ui.

(** * Properties of the score *)

Lemma computeScore_no_checks (passedLength : nat) :
  computeScore passedLength 0 = 100.
Proof. reflexivity. Qed.

Lemma scoresAgree_sound (total p : nat) :
  scoresAgree total = true -> (p <= total)%nat ->
  computeScore p total = specScore p total.
Proof.
  unfold scoresAgree. rewrite forallb_forall. intros Hall Hp.
  apply Z.eqb_eq, Hall, in_seq. lia.
Qed.

(** Below 40 checks the float computation gives the exact rounding. *)
Lemma computeScore_exact_below_40 (p total : nat) :
  (p <= total)%nat -> (total < 40)%nat ->
  computeScore p total = specScore p total.
Proof.
  intros Hp Ht. apply scoresAgree_sound; [| exact Hp].
  assert (Hall : forallb scoresAgree (seq 0 40) = true) by (vm_compute; reflexivity).
  rewrite forallb_forall in Hall. apply Hall, in_seq. lia.
Qed.

(** With the 46 automated rules of the catalogue, a single page always gets
    the exact rounding. *)
Lemma computeScore_exact_46 (p : nat) :
  (p <= 46)%nat -> computeScore p 46 = specScore p 46.
Proof.
  intros Hp. apply scoresAgree_sound; [vm_compute; reflexivity | exact Hp].
Qed.

Example score_7_of_10 : computeScore 7 (3 + 7) = 70 /\ specScore 7 (3 + 7) = 70.
Proof. split; vm_compute; reflexivity. Qed.

Section ScoreOfReports.
Context `{Host} `{Net}.
Variable dgaRules : list Rule.

Lemma finishReport_score (url : string) (acc : list Violation * list PassedCheck) :
  let r := finishReport url acc in
  pr_totalChecks r = (List.length (pr_violations r) + List.length (pr_passed r))%nat
  /\ pr_score r = computeScore (List.length (pr_passed r)) (pr_totalChecks r).
Proof. split; reflexivity. Qed.

(** [scanDocument] computes its score with [computeScore]. *)
Lemma scanDocument_score (doc : Doc) (pageUrl : option string) :
  let r := Scanner.scanDocument dgaRules doc pageUrl in
  pr_totalChecks r = (List.length (pr_violations r) + List.length (pr_passed r))%nat
  /\ pr_score r = computeScore (List.length (pr_passed r)) (pr_totalChecks r).
Proof. apply finishReport_score. Qed.

(** [scanMultipleUrls] computes its score with [computeScore] over the
    totals before deduplication. *)
Lemma scanMultipleUrls_score (scanUrl : string -> Completion PageReport)
    (urls : list string) :
  let r := fst (Aggregation.scanMultipleUrls scanUrl urls) in
  ar_totalChecks r
    = (ar_totalViolationsBeforeDedup r + List.length (ar_passed r))%nat
  /\ ar_score r = computeScore (List.length (ar_passed r)) (ar_totalChecks r).
Proof. split; reflexivity. Qed.

End ScoreOfReports.

(** C1.  The score is [Math.round((passed / total) * 100)] on binary64
    numbers, which is not always the rounding of [100 * passed / total]:
    twenty pages that pass 529 of their 920 checks (the ratio 23/40, that
    is 57.5 per cent) get the score 57, where the formula gives 58; the
    quotient 23/40 times 100 is the double just below 57.5.  The smallest
    totals where this happens are 23 passed checks and 17 violations. *)
Theorem aggregate_score_below_formula :
  let r := fst (Scanner.scanMultipleUrls Demo.countingRules Demo.twentyPages) in
  List.length (ar_passed r) = 529%nat
  /\ ar_totalViolationsBeforeDedup r = 391%nat
  /\ ar_totalChecks r = 920%nat
  /\ ar_score r = 57
  /\ specScore 529 920 = 58
  /\ computeScore 23 (17 + 23) = 57
  /\ specScore 23 (17 + 23) = 58.
Proof. vm_compute. repeat split; reflexivity. Qed.

(** * Properties of the scan loop *)

Section ScanLoop.
Context `{Net}.
Variable scanUrl : string -> Completion PageReport.

Lemma scanStep_fields (total : nat) (st : Aggregation.ScanLoop) (url : string) :
  let st' := Aggregation.scanStep scanUrl total st url in
  Aggregation.allViolations st'
    = (Aggregation.allViolations st ++ pageViolations scanUrl url)%list
  /\ Aggregation.allPassed st'
     = (Aggregation.allPassed st ++ pagePassed scanUrl url)%list
  /\ Aggregation.pageResults st'
     = (Aggregation.pageResults st ++ [summaryOf scanUrl url])%list
  /\ Aggregation.scannedCount st' = S (Aggregation.scannedCount st).
Proof.
  unfold Aggregation.scanStep, pageViolations, pagePassed, summaryOf.
  destruct (scanUrl url); cbn; rewrite ?app_nil_r; auto.
Qed.

Lemma scanLoop_from (total : nat) (urls : list string) (st : Aggregation.ScanLoop) :
  let st' := fold_left (Aggregation.scanStep scanUrl total) urls st in
  Aggregation.allViolations st'
    = (Aggregation.allViolations st ++ flat_map (pageViolations scanUrl) urls)%list
  /\ Aggregation.allPassed st'
     = (Aggregation.allPassed st ++ flat_map (pagePassed scanUrl) urls)%list
  /\ Aggregation.pageResults st'
     = (Aggregation.pageResults st ++ List.map (summaryOf scanUrl) urls)%list
  /\ Aggregation.scannedCount st'
     = (Aggregation.scannedCount st + List.length urls)%nat.
Proof.
  revert st. induction urls as [| url urls IH]; intros st; cbn.
  - rewrite !app_nil_r. auto with arith.
  - destruct (scanStep_fields total st url) as (Hv & Hp & Hr & Hc).
    destruct (IH (Aggregation.scanStep scanUrl total st url)) as (Hv' & Hp' & Hr' & Hc').
    cbn in Hv', Hp', Hr', Hc'.
    rewrite Hv', Hp', Hr', Hc', Hv, Hp, Hr, Hc, <- !app_assoc. cbn.
    repeat split; lia.
Qed.

(** The running totals are the pages' entries in the order of [urls], and
    every URL gets its summary. *)
Lemma scanLoop_totals (urls : list string) :
  let st := Aggregation.scanLoop scanUrl urls in
  Aggregation.allViolations st = flat_map (pageViolations scanUrl) urls
  /\ Aggregation.allPassed st = flat_map (pagePassed scanUrl) urls
  /\ Aggregation.pageResults st = List.map (summaryOf scanUrl) urls
  /\ Aggregation.scannedCount st = List.length urls.
Proof.
  exact (scanLoop_from (List.length urls) urls Aggregation.scanLoopInit).
Qed.

(** C3.  The status of the aggregate report is Compliant when there is no
    violation before deduplication, else NonCompliant when the violations
    before deduplication outnumber the passed checks, else
    PartiallyCompliant; both counts are the totals over the pages. *)
Theorem status_thresholds (urls : list string) :
  let r := fst (Aggregation.scanMultipleUrls scanUrl urls) in
  let violationCount := ar_totalViolationsBeforeDedup r in
  let passedCount := List.length (ar_passed r) in
  ar_status r
    = (if (violationCount =? 0)%nat then Compliant
       else if (passedCount <? violationCount)%nat then NonCompliant
            else PartiallyCompliant)
  /\ violationCount = List.length (flat_map (pageViolations scanUrl) urls)
  /\ passedCount = List.length (flat_map (pagePassed scanUrl) urls).
Proof.
  cbn. destruct (scanLoop_totals urls) as (Hv & Hp & _).
  cbn in Hv, Hp. rewrite <- Hv, <- Hp. split; [| split; reflexivity].
  unfold Aggregation.statusOf.
  destruct (List.length (Aggregation.allViolations (Aggregation.scanLoop scanUrl urls)));
    reflexivity.
Qed.

End ScanLoop.

(** * Failing pages *)

Section FailingPages.
Context `{Host} `{Net}.
Variable dgaRules : list Rule.

(** [scanUrl] handles every failure itself: it always resolves. *)
Lemma scanUrl_resolves (url : string) :
  exists report, Scanner.scanUrl dgaRules url = Normal report.
Proof. unfold Scanner.scanUrl. eexists. reflexivity. Qed.

(** A rejected fetch or a response that is not [ok] gives the error-shaped
    report (here where the URL is fetched directly). *)
Lemma scanUrl_fetch_failure (url message : string) (u : URL) :
  newURL url = Some u ->
  windowHref = None \/ isLocalhost u = true ->
  fetchText url = Throw message ->
  Scanner.scanUrl dgaRules url = Normal (errorReport url message).
Proof.
  intros Hu Hdirect Hfetch. unfold Scanner.scanUrl, parseURL. rewrite Hu. cbn.
  destruct Hdirect as [Hnode | Hlocal].
  - rewrite Hnode, Hfetch. reflexivity.
  - rewrite Hlocal. destruct windowHref; rewrite Hfetch; reflexivity.
Qed.

(** A page whose scan gave the error-shaped report has a zero summary
    without [error], and adds nothing to the totals. *)
Lemma failed_page_contribution (url message : string) :
  Scanner.scanUrl dgaRules url = Normal (errorReport url message) ->
  summaryOf (Scanner.scanUrl dgaRules) url
    = {| ps_url := url; ps_error := None; ps_score := 0;
         ps_violationCount := 0; ps_passedCount := 0 |}
  /\ pageViolations (Scanner.scanUrl dgaRules) url = []
  /\ pagePassed (Scanner.scanUrl dgaRules) url = [].
Proof.
  intros Hscan. unfold summaryOf, pageViolations, pagePassed.
  rewrite Hscan. repeat split.
Qed.

(** The handler of [scanMultipleUrls] never runs: no summary has [error]. *)
Lemma pageResults_without_error (urls : list string) :
  Forall (fun summary => ps_error summary = None)
    (ar_pageResults (fst (Scanner.scanMultipleUrls dgaRules urls))).
Proof.
  unfold Scanner.scanMultipleUrls. cbn.
  destruct (scanLoop_totals (Scanner.scanUrl dgaRules) urls) as (_ & _ & Hr & _).
  cbn in Hr. rewrite Hr. apply Forall_forall. intros summary Hin.
  apply in_map_iff in Hin. destruct Hin as (url & <- & _).
  unfold summaryOf. destruct (scanUrl_resolves url) as (report & ->). reflexivity.
Qed.

(** Every URL is scanned, whatever happened to the others. *)
Lemma pageResults_cover_urls (urls : list string) :
  List.map ps_url (ar_pageResults (fst (Scanner.scanMultipleUrls dgaRules urls)))
  = urls.
Proof.
  unfold Scanner.scanMultipleUrls. cbn.
  destruct (scanLoop_totals (Scanner.scanUrl dgaRules) urls) as (_ & _ & Hr & _).
  cbn in Hr. rewrite Hr, map_map.
  erewrite map_ext; [apply map_id |].
  intros url. unfold summaryOf.
  destruct (Scanner.scanUrl dgaRules url); reflexivity.
Qed.

End FailingPages.

(** C5.  A page whose fetch fails (here the server answers 500) is scanned
    without stopping the others and adds nothing to the totals, but its
    summary carries no [error]: [scanUrl] turns the failure into an
    error-shaped report instead of throwing, and [scanMultipleUrls] copies
    only [score] and the two counts from it; its handler, which is the one
    place that sets [error], is never reached. *)
Theorem failed_fetch_summary_lacks_error :
  let r := fst (Scanner.scanMultipleUrls Demo.smallRules
                  [Demo.home; Demo.down; Demo.about]) in
  Scanner.scanUrl Demo.smallRules Demo.down
    = Normal (errorReport Demo.down "Failed to fetch the URL")
  /\ ar_pageResults r
     = [ {| ps_url := Demo.home; ps_error := None; ps_score := 50;
            ps_violationCount := 1; ps_passedCount := 1 |};
         {| ps_url := Demo.down; ps_error := None; ps_score := 0;
            ps_violationCount := 0; ps_passedCount := 0 |};
         {| ps_url := Demo.about; ps_error := None; ps_score := 50;
            ps_violationCount := 1; ps_passedCount := 1 |} ]
  /\ List.map p_pageUrl (ar_passed r) = [Some Demo.home; Some Demo.about]
  /\ ar_totalViolationsBeforeDedup r = 2%nat.
Proof. vm_compute. repeat split; reflexivity. Qed.

(** * Predicates that throw *)

Section ThrowingPredicates.
Context `{Host} `{Net}.
Variable dgaRules : list Rule.

(** In the second copy of [dgaScanner.js], a [globalCheck] that throws
    makes its rule a violation. *)
Lemma evalGlobal_catches (rule : Rule) (globalCheck : Doc -> Completion CheckValue)
    (doc : Doc) (pageUrl : option string) (message : string) :
  globalCheck doc = Throw message ->
  exists v, Scanner.evalGlobal rule globalCheck doc pageUrl = ViolationEntry v
            /\ v_id v = r_id rule.
Proof.
  intros Hthrow. unfold Scanner.evalGlobal. rewrite Hthrow. cbn.
  eexists. split; reflexivity.
Qed.

Lemma elementStep_failed_stays (check : Element -> Completion CheckValue)
    (elements : list Element) (acc : ElementsAcc) :
  allPass acc = false ->
  allPass (fold_left (Scanner.elementStep check) elements acc) = false.
Proof.
  revert acc. induction elements as [| e elements IH]; intros acc Hacc; cbn.
  - exact Hacc.
  - apply IH. unfold Scanner.elementStep.
    destruct (check e) as [value |]; [| reflexivity].
    destruct (Scanner.checkPassed value); [exact Hacc |].
    destruct value; reflexivity.
Qed.

(** There, a [check] that throws on a matched element makes that element a
    failing one: the rule is a violation. *)
Lemma evalElements_catches (rule : Rule) (selector : string)
    (check : Element -> Completion CheckValue) (doc : Doc)
    (pageUrl : option string) (element : Element) (message : string) :
  In element (querySelectorAll doc selector) ->
  check element = Throw message ->
  exists v, Scanner.evalElements rule selector check doc pageUrl = ViolationEntry v
            /\ v_id v = r_id rule.
Proof.
  intros Hin Hthrow. unfold Scanner.evalElements.
  destruct (in_split _ _ Hin) as (before & after & Hsplit). rewrite Hsplit.
  replace (0 <? List.length (before ++ element :: after))%nat with true
    by (symmetry; apply Nat.ltb_lt; rewrite length_app; cbn; lia).
  rewrite fold_left_app. cbn.
  rewrite elementStep_failed_stays.
  - eexists. split; reflexivity.
  - unfold Scanner.elementStep. rewrite Hthrow. reflexivity.
Qed.

(** [scanDocument] of that copy is a total function: nothing propagates. *)
Lemma scanDocument_total (doc : Doc) (pageUrl : option string) :
  exists report, Scanner.scanDocument dgaRules doc pageUrl = report
                 /\ pr_error report = None.
Proof. eexists. split; reflexivity. Qed.

Lemma src_fold_throw (doc : Doc) (pageUrl : option string)
    (rules : list Rule) (message : string) :
  fold_left
    (fun acc rule =>
       a <- acc ;; o <- ScannerSrc.evalRule doc pageUrl rule ;;
       Normal (pushOutcome a o))
    rules (Throw message)
  = Throw message.
Proof. induction rules as [| rule rules IH]; cbn; [reflexivity | exact IH]. Qed.

(** In the copy at [src/utils/dgaScanner.js] what a predicate throws leaves
    [scanDocument]. *)
Lemma src_scanDocument_propagates (doc : Doc) (pageUrl : option string)
    (rule : Rule) (message : string) :
  In rule dgaRules ->
  ScannerSrc.evalRule doc pageUrl rule = Throw message ->
  exists message', ScannerSrc.scanDocument dgaRules doc pageUrl = Throw message'.
Proof.
  intros Hin Hthrow. unfold ScannerSrc.scanDocument.
  destruct (in_split _ _ Hin) as (before & after & ->).
  rewrite fold_left_app. cbn.
  destruct (fold_left _ before (Normal ([], []))) as [acc | message0]; cbn.
  - rewrite Hthrow. cbn. rewrite src_fold_throw. eexists. reflexivity.
  - rewrite src_fold_throw. eexists. reflexivity.
Qed.

End ThrowingPredicates.

(** C6.  A rule whose [globalCheck] throws: the copy of [scanDocument] at
    [src/utils/dgaScanner.js] has no handler and the error leaves it, where
    the second copy in that file catches it and records the violation. *)
Theorem src_scanDocument_throws :
  ScannerSrc.scanDocument Demo.throwingRules [] None
    = Throw "a.href.includes is not a function"
  /\ List.map v_id (pr_violations (Scanner.scanDocument Demo.throwingRules [] None))
     = ["41"]
  /\ pr_passed (Scanner.scanDocument Demo.throwingRules [] None) = [].
Proof. vm_compute. repeat split; reflexivity. Qed.

(** * Selectors that match nothing *)

Section VacuousPass.
Context `{Host}.

Lemma push_fold (f : Rule -> RuleOutcome) (rules : list Rule)
    (acc : list Violation * list PassedCheck) :
  fold_left (fun acc rule => pushOutcome acc (f rule)) rules acc
  = ((fst acc ++ flat_map (fun rule => violationsOf (f rule)) rules)%list,
     (snd acc ++ flat_map (fun rule => passedOf (f rule)) rules)%list).
Proof.
  revert acc. induction rules as [| rule rules IH]; intros [vs ps]; cbn.
  - rewrite !app_nil_r. reflexivity.
  - rewrite IH. destruct (f rule); cbn; rewrite <- ?app_assoc; reflexivity.
Qed.

(** The lists of the report, rule by rule. *)
Lemma scanDocument_lists (dgaRules : list Rule) (doc : Doc)
    (pageUrl : option string) :
  let outcome := Scanner.evalRule (Scanner.annotate doc pageUrl) pageUrl in
  pr_violations (Scanner.scanDocument dgaRules doc pageUrl)
    = flat_map (fun rule => violationsOf (outcome rule)) dgaRules
  /\ pr_passed (Scanner.scanDocument dgaRules doc pageUrl)
     = flat_map (fun rule => passedOf (outcome rule)) dgaRules.
Proof.
  unfold Scanner.scanDocument, finishReport. cbn. rewrite push_fold. cbn. auto.
Qed.

(** A selector rule whose selector matches nothing passes, in each of the
    three copies of the scanner. *)
Lemma evalRule_vacuous (rule : Rule) (doc : Doc) (pageUrl : option string)
    (selector : string) (check : Element -> Completion CheckValue) :
  r_type rule = automated -> r_globalCheck rule = None ->
  r_selector rule = Some selector -> selector <> "" ->
  r_check rule = Some check ->
  querySelectorAll doc selector = [] ->
  Scanner.evalRule doc pageUrl rule = PassedEntry (passedEntry rule)
  /\ ScannerCatalogue.evalRule doc pageUrl rule = PassedEntry (passedEntry rule)
  /\ ScannerSrc.evalRule doc pageUrl rule = Normal (PassedEntry (passedEntry rule)).
Proof.
  intros Htype Hglobal Hsel Hne Hcheck Hnone.
  unfold Scanner.evalRule, ScannerCatalogue.evalRule, ScannerSrc.evalRule.
  rewrite Htype, Hglobal, Hsel, Hcheck.
  destruct selector as [| c s]; [contradiction Hne; reflexivity |].
  unfold Scanner.evalElements, ScannerCatalogue.evalElements,
    ScannerSrc.evalElements.
  rewrite Hnone. cbn. auto.
Qed.

(** C4.  A selector rule (automated, without [globalCheck], with a selector
    and a [check]) whose selector matches no element of the scanned
    document adds exactly one entry to [passed], its own, and none to
    [violations]: around it the two lists are those of the rules before it
    and of the rules after it. *)
Theorem vacuous_pass (before after : list Rule) (rule : Rule) (doc : Doc)
    (pageUrl : option string) (selector : string)
    (check : Element -> Completion CheckValue) :
  r_type rule = automated -> r_globalCheck rule = None ->
  r_selector rule = Some selector -> selector <> "" ->
  r_check rule = Some check ->
  querySelectorAll (Scanner.annotate doc pageUrl) selector = [] ->
  let scan := fun rules => Scanner.scanDocument rules doc pageUrl in
  pr_passed (scan (before ++ rule :: after)%list)
    = (pr_passed (scan before) ++ passedEntry rule :: pr_passed (scan after))%list
  /\ pr_violations (scan (before ++ rule :: after)%list)
     = (pr_violations (scan before) ++ pr_violations (scan after))%list.
Proof.
  intros Htype Hglobal Hsel Hne Hcheck Hnone scan. subst scan. cbn beta.
  destruct (scanDocument_lists (before ++ rule :: after) doc pageUrl) as (Hv & Hp).
  destruct (scanDocument_lists before doc pageUrl) as (Hv1 & Hp1).
  destruct (scanDocument_lists after doc pageUrl) as (Hv2 & Hp2).
  cbn zeta in Hv, Hp, Hv1, Hp1, Hv2, Hp2.
  rewrite Hv, Hp, Hv1, Hp1, Hv2, Hp2, !flat_map_app. cbn [flat_map].
  destruct (evalRule_vacuous rule (Scanner.annotate doc pageUrl) pageUrl
              selector check Htype Hglobal Hsel Hne Hcheck Hnone) as (-> & _).
  split; reflexivity.
Qed.

End VacuousPass.

(** The rule on images, between a manual rule and a failing rule, on a
    page without images. *)
Lemma vacuous_pass_witness :
  let scan := fun rules => Scanner.scanDocument rules [Demo.about] None in
  querySelectorAll (Scanner.annotate [Demo.about] None) "img" = []
  /\ pr_passed (scan Demo.smallRules)
     = (pr_passed (scan [Demo.manualRule]) ++ passedEntry Demo.imageRule
          :: pr_passed (scan [Demo.anchorsRule]))%list
  /\ pr_violations (scan Demo.smallRules)
     = (pr_violations (scan [Demo.manualRule])
          ++ pr_violations (scan [Demo.anchorsRule]))%list.
Proof.
  split; [reflexivity |].
  apply (vacuous_pass [Demo.manualRule] [Demo.anchorsRule] Demo.imageRule
           [Demo.about] None "img" Demo.imageCheck);
    try reflexivity.
  discriminate.
Defined.

(** * Deduplication *)

Section Distinct.

Lemma has_In (s : list string) (x : string) : Crawler.has s x = true <-> In x s.
Proof.
  unfold Crawler.has. rewrite existsb_exists. split.
  - intros (y & Hin & Heq). apply String.eqb_eq in Heq. subst. exact Hin.
  - intros Hin. exists x. split; [exact Hin | apply String.eqb_refl].
Qed.

Lemma has_not_In (s : list string) (x : string) :
  Crawler.has s x = false <-> ~ In x s.
Proof.
  rewrite <- has_In. destruct (Crawler.has s x); split; intros; congruence.
Qed.

Lemma In_add (s : list string) (x y : string) :
  In y (Crawler.add s x) <-> In y s \/ y = x.
Proof.
  unfold Crawler.add. destruct (Crawler.has s x) eqn:Hhas.
  - apply has_In in Hhas. split; [auto |]. intros [Hin | ->]; assumption.
  - rewrite in_app_iff. cbn. intuition congruence.
Qed.

Lemma NoDup_add (s : list string) (x : string) :
  NoDup s -> NoDup (Crawler.add s x).
Proof.
  intros Hnd. unfold Crawler.add. destruct (Crawler.has s x) eqn:Hhas.
  - exact Hnd.
  - apply has_not_In in Hhas. apply NoDup_app; [exact Hnd | repeat constructor; auto |].
    intros y Hy [<- | []]. exact (Hhas Hy).
Qed.

Lemma distinct_app (l1 l2 : list string) :
  distinct (l1 ++ l2) = fold_left Crawler.add l2 (distinct l1).
Proof. unfold distinct. apply fold_left_app. Qed.

Lemma distinct_snoc (l : list string) (x : string) :
  distinct (l ++ [x]) = Crawler.add (distinct l) x.
Proof. rewrite distinct_app. reflexivity. Qed.

Lemma In_distinct (l : list string) (x : string) : In x (distinct l) <-> In x l.
Proof.
  induction l as [| y l IH] using rev_ind.
  - reflexivity.
  - rewrite distinct_snoc, In_add, in_app_iff, IH. cbn. intuition.
Qed.

Lemma NoDup_distinct (l : list string) : NoDup (distinct l).
Proof.
  induction l as [| y l IH] using rev_ind.
  - constructor.
  - rewrite distinct_snoc. apply NoDup_add, IH.
Qed.

(** Adding a non-empty run of one string adds that string once. *)
Lemma add_run (s : list string) (x : string) (run : list string) :
  run <> [] -> (forall y, In y run -> y = x) ->
  fold_left Crawler.add run s = Crawler.add s x.
Proof.
  intros Hne Hall. destruct run as [| y run]; [contradiction Hne; reflexivity |].
  clear Hne. assert (y = x) as -> by (apply Hall; left; reflexivity).
  assert (Hrun : forall z, In z run -> z = x) by (intros z Hz; apply Hall; right; exact Hz).
  clear Hall. cbn. revert Hrun.
  induction run as [| z run IH]; intros Hrun; cbn; [reflexivity |].
  assert (z = x) as -> by (apply Hrun; left; reflexivity).
  replace (Crawler.add (Crawler.add s x) x) with (Crawler.add s x).
  - apply IH. intros w Hw. apply Hrun. right. exact Hw.
  - unfold Crawler.add at 2.
    replace (Crawler.has (Crawler.add s x) x) with true; [reflexivity |].
    symmetry. apply has_In, In_add. right. reflexivity.
Qed.

End Distinct.

Section Dedup.

Lemma find_app_l {A : Type} (f : A -> bool) (l1 l2 : list A) (a : A) :
  find f l1 = Some a -> find f (l1 ++ l2) = Some a.
Proof.
  induction l1 as [| x l1 IH]; cbn; [discriminate |].
  destruct (f x); [auto | exact IH].
Qed.

Lemma find_app_r {A : Type} (f : A -> bool) (l1 l2 : list A) :
  find f l1 = None -> find f (l1 ++ l2) = find f l2.
Proof.
  induction l1 as [| x l1 IH]; cbn; [reflexivity |].
  destruct (f x); [discriminate | exact IH].
Qed.

Lemma keyIs_absent (key : string) (vs : list Violation) :
  ~ In key (List.map Aggregation.violationKey vs) ->
  filter (keyIs key) vs = [] /\ find (keyIs key) vs = None.
Proof.
  induction vs as [| v vs IH]; cbn; [auto |].
  intros Hnot. destruct (keyIs key v) eqn:Hkey.
  - apply String.eqb_eq in Hkey. contradiction Hnot. left. exact Hkey.
  - apply IH. intros Hin. apply Hnot. right. exact Hin.
Qed.

Lemma mapHas_In (key : string) (m : Aggregation.ViolationMap) :
  Aggregation.mapHas key m = true <-> In key (List.map fst m).
Proof.
  unfold Aggregation.mapHas. rewrite existsb_exists, in_map_iff. split.
  - intros (kv & Hin & Heq). apply String.eqb_eq in Heq. exists kv. auto.
  - intros (kv & Heq & Hin). exists kv. split; [exact Hin |].
    apply String.eqb_eq. exact Heq.
Qed.

(** On a map (keys without repetition) an update touches its entry only. *)
Lemma mapUpdate_as_map (key : string) (f : DedupedViolation -> DedupedViolation)
    (m : Aggregation.ViolationMap) :
  NoDup (List.map fst m) ->
  Aggregation.mapUpdate key f m
  = List.map (fun kv => if String.eqb (fst kv) key then (fst kv, f (snd kv)) else kv) m.
Proof.
  induction m as [| [k d] m IH]; cbn; [reflexivity |].
  intros Hnd. inversion Hnd as [| ? ? Hnot Hnd']; subst.
  destruct (String.eqb_spec k key) as [-> | Hne].
  - f_equal. symmetry. erewrite map_ext_in; [apply map_id |].
    intros [k' d'] Hin. cbn.
    destruct (String.eqb_spec k' key) as [-> | _]; [| reflexivity].
    contradiction Hnot. apply in_map_iff. exists (key, d'). auto.
  - f_equal. apply IH, Hnd'.
Qed.

Lemma trackPage_fields (pageUrl : string) (d : DedupedViolation) :
  d_occurrences d = List.length (d_affectedPages d) ->
  let d' := Aggregation.trackPage pageUrl d in
  d_violation d' = d_violation d
  /\ d_affectedPages d' = Crawler.add (d_affectedPages d) pageUrl
  /\ d_occurrences d' = List.length (d_affectedPages d').
Proof.
  intros Hocc. unfold Aggregation.trackPage, Crawler.add, Crawler.has,
    Aggregation.includes.
  destruct (existsb (String.eqb pageUrl) (d_affectedPages d)); cbn.
  - auto.
  - rewrite length_app, Hocc. cbn. repeat split. lia.
Qed.

Lemma pagesOfKey_snoc_other (key : string) (vs : list Violation) (v : Violation) :
  Aggregation.violationKey v <> key ->
  pagesOfKey key (vs ++ [v]) = pagesOfKey key vs.
Proof.
  intros Hne. unfold pagesOfKey. rewrite filter_app. cbn. unfold keyIs at 2.
  destruct (String.eqb_spec (Aggregation.violationKey v) key); [contradiction |].
  rewrite app_nil_r. reflexivity.
Qed.

Lemma pagesOfKey_snoc_same (vs : list Violation) (v : Violation) :
  pagesOfKey (Aggregation.violationKey v) (vs ++ [v])
  = Crawler.add (pagesOfKey (Aggregation.violationKey v) vs) (v_pageUrl v).
Proof.
  unfold pagesOfKey. rewrite filter_app. cbn. unfold keyIs at 2.
  rewrite String.eqb_refl, map_app. cbn. apply distinct_snoc.
Qed.

Lemma dedupStep_MapFor (vs : list Violation) (m : Aggregation.ViolationMap)
    (v : Violation) :
  MapFor vs m -> MapFor (vs ++ [v]) (Aggregation.dedupStep m v).
Proof.
  intros (Hkeys & Hall). unfold Aggregation.dedupStep.
  set (key := Aggregation.violationKey v).
  assert (Hnd : NoDup (List.map fst m)) by (rewrite Hkeys; apply NoDup_distinct).
  destruct (Aggregation.mapHas key m) eqn:Hhas; cbn [negb].
  - (* the key is known: its entry tracks the page *)
    apply mapHas_In in Hhas. rewrite mapUpdate_as_map by exact Hnd. split.
    + rewrite map_map, map_app. cbn [List.map]. rewrite distinct_snoc. fold key.
      unfold Crawler.add.
      replace (Crawler.has (distinct (List.map Aggregation.violationKey vs)) key)
        with true by (symmetry; apply has_In; rewrite <- Hkeys; exact Hhas).
      rewrite <- Hkeys. apply map_ext. intros [k d]. cbn.
      destruct (String.eqb k key); reflexivity.
    + apply Forall_map. revert Hall. apply Forall_impl.
      intros [k d] (Hk & Hfind & Hpages & Hocc). cbn in *.
      destruct (String.eqb_spec k key) as [-> | Hne]; cbn.
      * destruct (trackPage_fields (v_pageUrl v) d Hocc) as (Hv' & Hp' & Ho').
        unfold dedupKey. rewrite Hv'. repeat split.
        -- exact Hk.
        -- apply find_app_l. exact Hfind.
        -- rewrite Hp', Hpages. symmetry. apply pagesOfKey_snoc_same.
        -- exact Ho'.
      * repeat split.
        -- exact Hk.
        -- apply find_app_l. exact Hfind.
        -- rewrite Hpages. symmetry. apply pagesOfKey_snoc_other. fold key. congruence.
        -- exact Hocc.
  - (* first occurrence of the key *)
    assert (Hnew : ~ In key (List.map Aggregation.violationKey vs)).
    { intros Hin. apply In_distinct in Hin. rewrite <- Hkeys in Hin.
      apply mapHas_In in Hin. congruence. }
    destruct (keyIs_absent key vs Hnew) as (Hfilter & Hfind0). split.
    + rewrite !map_app. cbn [List.map fst]. rewrite distinct_snoc. fold key.
      unfold Crawler.add.
      replace (Crawler.has (distinct (List.map Aggregation.violationKey vs)) key)
        with false by (symmetry; apply has_not_In; rewrite In_distinct; exact Hnew).
      rewrite Hkeys. reflexivity.
    + apply Forall_app. split.
      * revert Hall. rewrite Forall_forall. intros Hall. apply Forall_forall.
        intros [k d] Hin. destruct (Hall _ Hin) as (Hk & Hfind & Hpages & Hocc).
        cbn in *.
        assert (Hne : key <> k).
        { intros <-. apply Hnew. apply In_distinct. rewrite <- Hkeys.
          apply in_map_iff. exists (key, d). auto. }
        repeat split.
        -- exact Hk.
        -- apply find_app_l. exact Hfind.
        -- rewrite Hpages. symmetry. apply pagesOfKey_snoc_other. exact Hne.
        -- exact Hocc.
      * constructor; [| constructor]. cbn. repeat split.
        -- rewrite find_app_r by exact Hfind0. cbn. unfold keyIs. fold key.
           rewrite String.eqb_refl. reflexivity.
        -- unfold pagesOfKey. rewrite filter_app, Hfilter. cbn. unfold keyIs.
           fold key. rewrite String.eqb_refl. reflexivity.
Qed.

Lemma fold_dedupStep_MapFor (vs : list Violation) :
  MapFor vs (fold_left Aggregation.dedupStep vs []).
Proof.
  induction vs as [| v vs IH] using rev_ind.
  - split; [reflexivity | constructor].
  - rewrite fold_left_app. cbn. apply dedupStep_MapFor, IH.
Qed.

End Dedup.

Section DedupOfScan.
Context `{Net}.
Variable scanUrl : string -> Completion PageReport.

Lemma dedupViolations_spec (vs : list Violation) :
  let unique := Aggregation.dedupViolations vs in
  List.map dedupKey unique = distinct (List.map Aggregation.violationKey vs)
  /\ Forall
       (fun d =>
          find (keyIs (dedupKey d)) vs = Some (d_violation d)
          /\ d_affectedPages d = pagesOfKey (dedupKey d) vs
          /\ d_occurrences d = List.length (d_affectedPages d))
       unique.
Proof.
  unfold Aggregation.dedupViolations.
  destruct (fold_dedupStep_MapFor vs) as (Hkeys & Hall).
  set (m := fold_left Aggregation.dedupStep vs []) in *. split.
  - rewrite <- Hkeys, map_map. apply map_ext_in. intros kv Hin.
    rewrite Forall_forall in Hall. apply (Hall kv Hin).
  - apply Forall_map. revert Hall. apply Forall_impl.
    intros kv (Hk & Hfind & Hpages & Hocc). rewrite Hk. auto.
Qed.

Lemma pageViolations_url (url : string) (v : Violation) :
  In v (pageViolations scanUrl url) -> v_pageUrl v = url.
Proof.
  unfold pageViolations. destruct (scanUrl url) as [report |]; [| intros []].
  intros Hin. apply in_map_iff in Hin. destruct Hin as (v0 & <- & _). reflexivity.
Qed.

(** When every page of a list without repetition has a violation with the
    key, the pages of the key are the list itself. *)
Lemma pagesOfKey_every_page (key : string) (urls : list string) :
  NoDup urls ->
  (forall url, In url urls ->
     exists v, In v (pageViolations scanUrl url)
               /\ Aggregation.violationKey v = key) ->
  pagesOfKey key (flat_map (pageViolations scanUrl) urls) = urls.
Proof.
  induction urls as [| url urls IH] using rev_ind; intros Hnd Hall.
  - reflexivity.
  - assert (Hnd' : NoDup urls) by (apply NoDup_app_remove_r in Hnd; exact Hnd).
    assert (Hfresh : ~ In url urls).
    { apply NoDup_remove_2 in Hnd. rewrite app_nil_r in Hnd. exact Hnd. }
    unfold pagesOfKey in *.
    rewrite flat_map_app, filter_app, map_app, distinct_app, IH.
    + cbn [flat_map]. rewrite app_nil_r. rewrite (add_run urls url).
      * unfold Crawler.add.
        replace (Crawler.has urls url) with false
          by (symmetry; apply has_not_In; exact Hfresh).
        reflexivity.
      * destruct (Hall url) as (v & Hin & Hkey);
          [apply in_app_iff; right; left; reflexivity |].
        intros Hnil.
        assert (Hv : In (v_pageUrl v)
                       (List.map v_pageUrl
                          (filter (keyIs key) (pageViolations scanUrl url)))).
        { apply in_map, filter_In. split; [exact Hin |].
          apply String.eqb_eq. exact Hkey. }
        rewrite Hnil in Hv. exact Hv.
      * intros y Hy. apply in_map_iff in Hy. destruct Hy as (v & <- & Hv).
        apply filter_In in Hv. apply pageViolations_url, Hv.
    + exact Hnd'.
    + intros u Hu. apply Hall, in_app_iff. left. exact Hu.
Qed.

Lemma filter_absent_key (key : string) (unique : list DedupedViolation) :
  ~ In key (List.map dedupKey unique) ->
  filter (fun d' => String.eqb (dedupKey d') key) unique = [].
Proof.
  induction unique as [| d0 unique IH]; cbn; [reflexivity |].
  intros Hnot. destruct (String.eqb_spec (dedupKey d0) key) as [Heq | Hne].
  - contradiction Hnot. left. exact Heq.
  - apply IH. intros Hin. apply Hnot. right. exact Hin.
Qed.

Lemma filter_unique_key (key : string) (unique : list DedupedViolation)
    (d : DedupedViolation) :
  NoDup (List.map dedupKey unique) -> In d unique -> dedupKey d = key ->
  filter (fun d' => String.eqb (dedupKey d') key) unique = [d].
Proof.
  intros Hnd Hin <-. induction unique as [| d0 unique IH]; [destruct Hin |].
  cbn in *. inversion Hnd as [| ? ? Hnot Hnd']; subst.
  destruct Hin as [-> | Hin].
  - rewrite String.eqb_refl, filter_absent_key by exact Hnot. reflexivity.
  - destruct (String.eqb_spec (dedupKey d0) (dedupKey d)) as [Heq | Hne].
    + contradiction Hnot. rewrite Heq. apply in_map. exact Hin.
    + apply IH; assumption.
Qed.

(** C2 (as amended).  The violations of the aggregate report are one per
    key [id-description], in the order in which the keys first appear among
    the violations collected before deduplication; each carries the first
    violation that has its key, lists in [affectedPages] the pages of the
    violations that have its key, each page once in order of appearance,
    and has [occurrences] equal to the length of [affectedPages]: a further
    violation with a known key counts only when its page is new.  So
    scanning pages with distinct URLs that each produce a violation with
    one key gives exactly one entry for that key, whose [affectedPages] are
    these pages and whose [occurrences] is their number. *)
Theorem dedup_by_key_and_page (urls : list string) :
  let collected := flat_map (pageViolations scanUrl) urls in
  let unique := ar_violations (fst (Aggregation.scanMultipleUrls scanUrl urls)) in
  List.map dedupKey unique
    = distinct (List.map Aggregation.violationKey collected)
  /\ Forall
       (fun d =>
          find (keyIs (dedupKey d)) collected = Some (d_violation d)
          /\ d_affectedPages d = pagesOfKey (dedupKey d) collected
          /\ d_occurrences d = List.length (d_affectedPages d))
       unique
  /\ forall key,
       NoDup urls -> urls <> [] ->
       (forall url, In url urls ->
          exists v, In v (pageViolations scanUrl url)
                    /\ Aggregation.violationKey v = key) ->
       exists d,
         filter (fun d' => String.eqb (dedupKey d') key) unique = [d]
         /\ d_affectedPages d = urls
         /\ d_occurrences d = List.length urls.
Proof.
  cbn zeta. cbn [fst Aggregation.scanMultipleUrls ar_violations].
  destruct (scanLoop_totals scanUrl urls) as (Hcollected & _).
  cbn zeta in Hcollected. rewrite Hcollected.
  set (collected := flat_map (pageViolations scanUrl) urls).
  destruct (dedupViolations_spec collected) as (Hkeys & Hall). cbn zeta in Hkeys, Hall.
  split; [exact Hkeys | split; [exact Hall |]].
  intros key Hnd Hne Hpages.
  assert (Hkey : In key (List.map dedupKey (Aggregation.dedupViolations collected))).
  { rewrite Hkeys. apply In_distinct.
    destruct urls as [| url urls']; [contradiction Hne; reflexivity |].
    destruct (Hpages url (or_introl eq_refl)) as (v & Hin & Hv).
    rewrite <- Hv. apply in_map. unfold collected. cbn [flat_map].
    apply in_app_iff. left. exact Hin. }
  apply in_map_iff in Hkey. destruct Hkey as (d & Hd & Hin).
  exists d. split.
  - apply filter_unique_key; [rewrite Hkeys; apply NoDup_distinct | exact Hin | exact Hd].
  - rewrite Forall_forall in Hall. destruct (Hall d Hin) as (_ & Hp & Ho).
    rewrite Ho, Hp, Hd. unfold collected.
    rewrite pagesOfKey_every_page by assumption. auto.
Qed.

End DedupOfScan.

(** Three pages of the example site fail the rule on anchors. *)
Lemma dedup_three_pages_witness :
  let urls := [Demo.home; Demo.about; Demo.report] in
  exists d,
    filter (fun d' => String.eqb (dedupKey d') "40-Rule 40")
      (ar_violations (fst (Scanner.scanMultipleUrls Demo.smallRules urls))) = [d]
    /\ d_affectedPages d = urls
    /\ d_occurrences d = 3%nat.
Proof.
  intros urls.
  destruct (dedup_by_key_and_page (Scanner.scanUrl Demo.smallRules) urls)
    as (_ & _ & Hpages).
  apply (Hpages "40-Rule 40").
  - repeat constructor; cbn; intuition discriminate.
  - discriminate.
  - intros url [<- | [<- | [<- | []]]];
      (eexists; split; [left; reflexivity | reflexivity]).
Defined.

(** C2, as stated, fails.  A URL listed twice gives two violations with one
    key and one page: the second one changes nothing, and the entry keeps
    [occurrences = 1] although its key occurs twice. *)
Lemma repeated_page_counts_once :
  let urls := [Demo.home; Demo.home] in
  let collected := flat_map (pageViolations (Scanner.scanUrl Demo.smallRules)) urls in
  let unique := ar_violations (fst (Scanner.scanMultipleUrls Demo.smallRules urls)) in
  List.map (fun d => (dedupKey d, d_affectedPages d, d_occurrences d)) unique
    = [("40-Rule 40", [Demo.home], 1%nat)]
  /\ occurrencesOfKey "40-Rule 40" collected = 2%nat
  /\ ~ CountsEveryOccurrence collected unique.
Proof.
  cbn zeta. split; [vm_compute; reflexivity |].
  split; [vm_compute; reflexivity |].
  intros Hall. apply Forall_inv in Hall. vm_compute in Hall. discriminate.
Qed.

(** * The crawl loop *)

Section CrawlLoop.
Context `{Host} `{Net}.
Variable baseOrigin : string.
Variable maxPages maxDepth : Z.

Let iteration := Crawler.crawlIteration baseOrigin maxPages maxDepth.
Let cond := Crawler.loopCond maxPages.
Let run := Crawler.crawlRun baseOrigin maxPages maxDepth.

(** What the loop over the links of a page does to [discoveredUrls] and to
    the queue: it appends the same new links to both. *)
Lemma addLink_fold (depth : Z) (links : list string)
    (discovered : list string) (queue : list (string * Z)) :
  exists new,
    fold_left (Crawler.addLink maxPages depth) links (discovered, queue)
    = ((discovered ++ new)%list,
       (queue ++ List.map (fun link => (link, depth + 1)) new)%list)
    /\ NoDup new
    /\ (forall link, In link new -> ~ In link discovered)
    /\ (new <> [] -> Crawler.size (discovered ++ new) <= maxPages).
Proof.
  revert discovered queue.
  induction links as [| link links IH]; intros discovered queue; cbn.
  - exists []. rewrite !app_nil_r. repeat split; [constructor | intros ? [] | congruence].
  - unfold Crawler.addLink at 2. cbn [fst snd].
    destruct (Crawler.has discovered link) eqn:Hhas; cbn [negb andb].
    + apply IH.
    + destruct (Crawler.size discovered <? maxPages) eqn:Hroom.
      * unfold Crawler.add. rewrite Hhas.
        destruct (IH (discovered ++ [link])%list
                    (queue ++ [(link, depth + 1)])%list)
          as (new & Hfold & Hnd & Hfresh & Hsize).
        exists (link :: new). rewrite Hfold, <- !app_assoc. cbn.
        apply has_not_In in Hhas. apply Z.ltb_lt in Hroom.
        split; [reflexivity | split; [| split]].
        -- constructor; [| exact Hnd]. intros Hin.
           apply (Hfresh link Hin), in_app_iff. right. left. reflexivity.
        -- intros l [<- | Hin]; [exact Hhas |]. intros Hd.
           apply (Hfresh l Hin), in_app_iff. left. exact Hd.
        -- intros _. destruct new as [| l new'].
           ++ unfold Crawler.size in *. rewrite length_app in *. cbn. lia.
           ++ rewrite <- app_assoc in Hsize. apply Hsize. discriminate.
      * apply IH.
Qed.

(** The three ways an iteration can go. *)
Lemma iteration_cases (s : Crawler.CrawlState) (url : string) (depth : Z)
    (rest : list (string * Z)) :
  Crawler.queue s = (url, depth) :: rest ->
  let s' := iteration s in
  (* skipped: already visited or too deep *)
  ((Crawler.has (Crawler.visitedUrls s) url = true \/ maxDepth < depth)
   /\ Crawler.discoveredUrls s' = Crawler.discoveredUrls s
   /\ Crawler.visitedUrls s' = Crawler.visitedUrls s
   /\ Crawler.queue s' = rest)
  \/
  (* visited: the page is fetched and gives the links [new], possibly none *)
  (Crawler.has (Crawler.visitedUrls s) url = false /\ depth <= maxDepth
   /\ exists new,
        Crawler.discoveredUrls s' = (Crawler.discoveredUrls s ++ new)%list
        /\ Crawler.visitedUrls s' = Crawler.add (Crawler.visitedUrls s) url
        /\ Crawler.queue s'
           = (rest ++ List.map (fun link => (link, depth + 1)) new)%list
        /\ NoDup new
        /\ (forall link, In link new -> ~ In link (Crawler.discoveredUrls s))
        /\ (new <> [] -> Crawler.size (Crawler.discoveredUrls s ++ new) <= maxPages)).
Proof.
  intros Hq. subst iteration. unfold Crawler.crawlIteration. rewrite Hq.
  destruct (Crawler.has (Crawler.visitedUrls s) url) eqn:Hvisited; cbn [orb].
  - left. cbn. auto.
  - destruct (maxDepth <? depth) eqn:Hdeep.
    + left. apply Z.ltb_lt in Hdeep. cbn. auto.
    + right. apply Z.ltb_ge in Hdeep. split; [reflexivity | split; [exact Hdeep |]].
      destruct (Crawler.fetchLinks baseOrigin url) as [[links |] | message].
      * destruct (addLink_fold depth links (Crawler.discoveredUrls s) rest)
          as (new & Hfold & Hnd & Hfresh & Hsize).
        exists new. rewrite Hfold. cbn. repeat split; assumption.
      * exists []. cbn. rewrite !app_nil_r.
        repeat split; [constructor | intros ? [] | congruence].
      * exists []. cbn. rewrite !app_nil_r.
        repeat split; [constructor | intros ? [] | congruence].
Qed.

Lemma cond_true (s : Crawler.CrawlState) :
  cond s = true ->
  Crawler.size (Crawler.discoveredUrls s) < maxPages
  /\ exists url depth rest, Crawler.queue s = (url, depth) :: rest.
Proof.
  subst cond. unfold Crawler.loopCond. intros Hc.
  apply andb_true_iff in Hc. destruct Hc as (Hq & Hd).
  apply Z.ltb_lt in Hd. apply Nat.ltb_lt in Hq. split; [exact Hd |].
  destruct (Crawler.queue s) as [| [url depth] rest]; [cbn in Hq; lia |].
  eauto.
Qed.

(** One iteration either discovers pages, within the budget, or leaves
    [discoveredUrls] as it is and shortens the queue. *)
Lemma iteration_decreases (s : Crawler.CrawlState) :
  cond s = true ->
  let s' := iteration s in
  (maxPages - Crawler.size (Crawler.discoveredUrls s')
     < maxPages - Crawler.size (Crawler.discoveredUrls s)
   \/ (Crawler.discoveredUrls s' = Crawler.discoveredUrls s
       /\ (List.length (Crawler.queue s') < List.length (Crawler.queue s))%nat))
  /\ Crawler.size (Crawler.discoveredUrls s') <= maxPages
  /\ (crawlMeasure maxPages s' < crawlMeasure maxPages s)%nat.
Proof.
  intros Hc. destruct (cond_true s Hc) as (Hroom & url & depth & rest & Hq).
  destruct (iteration_cases s url depth rest Hq)
    as [(_ & Hd & _ & Hq') | (_ & _ & new & Hd & _ & Hq' & _ & _ & Hsize)];
    cbn zeta; unfold crawlMeasure; fold iteration; rewrite Hd, Hq', Hq.
  - cbn [List.length]. repeat split; [right; split; [reflexivity | lia] | lia | lia].
  - destruct new as [| link new'].
    + rewrite !app_nil_r. cbn [List.map List.length].
      repeat split; [right; split; [reflexivity | lia] | lia | lia].
    + assert (Hs := Hsize ltac:(discriminate)).
      unfold Crawler.size in *. rewrite !length_app, length_map in *.
      cbn [List.length] in *. repeat split; [left; lia | lia | lia].
Qed.

(** With fuel above the measure the loop ends, in a state where its test
    fails. *)
Lemma crawlLoop_terminates (fuel : nat) (s : Crawler.CrawlState) :
  (crawlMeasure maxPages s <= fuel)%nat ->
  exists s', Crawler.crawlLoop baseOrigin maxPages maxDepth fuel s = Some s'
             /\ cond s' = false.
Proof.
  revert s. induction fuel as [| fuel IH]; intros s Hm; cbn;
    fold cond; destruct (cond s) eqn:Hc; eauto.
  - destruct (cond_true s Hc) as (_ & url & depth & rest & Hq).
    unfold crawlMeasure in Hm. rewrite Hq in Hm. cbn in Hm. lia.
  - apply IH. destruct (iteration_decreases s Hc) as (_ & _ & Hlt).
    fold iteration. cbn zeta in Hlt. lia.
Qed.

Lemma crawlLoop_is_run (fuel : nat) (s s' : Crawler.CrawlState) :
  Crawler.crawlLoop baseOrigin maxPages maxDepth fuel s = Some s' ->
  s' = run fuel s /\ cond s' = false.
Proof.
  subst run. revert s. induction fuel as [| fuel IH]; intros s; cbn;
    fold cond; destruct (cond s) eqn:Hc; intros Hloop.
  - discriminate.
  - injection Hloop as <-. auto.
  - apply IH. exact Hloop.
  - injection Hloop as <-. auto.
Qed.

Lemma run_add (i k : nat) (s : Crawler.CrawlState) :
  run (i + k) s = run k (run i s).
Proof.
  subst run. revert s. induction i as [| i IH]; intros s; cbn; [reflexivity |].
  fold cond. destruct (cond s) eqn:Hc; [apply IH |].
  destruct k; cbn; [reflexivity |]. fold cond. rewrite Hc. reflexivity.
Qed.

(** A property kept by the iterations holds all along the run. *)
Lemma run_invariant (P : Crawler.CrawlState -> Prop) :
  (forall s, P s -> P (iteration s)) ->
  forall n s, P s -> P (run n s).
Proof.
  intros Hstep. subst run. induction n as [| n IH]; intros s Hs; cbn; [exact Hs |].
  destruct (Crawler.loopCond maxPages s); [apply IH, Hstep, Hs | exact Hs].
Qed.

End CrawlLoop.

Section CrawlInvariants.
Context `{Host} `{Net}.
Variable baseOrigin : string.
Variable maxPages maxDepth : Z.

Let iteration := Crawler.crawlIteration baseOrigin maxPages maxDepth.
Let run := Crawler.crawlRun baseOrigin maxPages maxDepth.

Lemma iteration_empty_queue (s : Crawler.CrawlState) :
  Crawler.queue s = [] -> iteration s = s.
Proof.
  intros Hq. subst iteration. unfold Crawler.crawlIteration. rewrite Hq. reflexivity.
Qed.

Lemma in_queue_new (url : string) (depth d : Z) (new : list string) :
  In (url, d) (List.map (fun link => (link, depth + 1)) new) -> In url new.
Proof.
  intros Hin. apply in_map_iff in Hin. destruct Hin as (l & Heq & Hl).
  injection Heq as -> _. exact Hl.
Qed.

Lemma QueueInv_iteration (s : Crawler.CrawlState) :
  QueueInv s -> QueueInv (iteration s).
Proof.
  intros (Hdisc & Hnd & Hvis).
  destruct (Crawler.queue s) as [| [url depth] rest] eqn:Hq;
    [rewrite iteration_empty_queue by exact Hq; unfold QueueInv; rewrite Hq; auto |].
  cbn in Hnd. inversion Hnd as [| ? ? Hhead Hnd']; subst.
  destruct (iteration_cases baseOrigin maxPages maxDepth s url depth rest Hq)
    as [(_ & Hd & Hv & Hq') | (_ & _ & new & Hd & Hv & Hq' & Hnew & Hfresh & _)];
    fold iteration in Hd, Hv, Hq'; unfold QueueInv; rewrite Hd, Hv, Hq'.
  - split; [| split].
    + intros u d Hin. apply (Hdisc u d). right. exact Hin.
    + exact Hnd'.
    + intros u Hu. split; [apply Hvis, Hu |].
      intros Hin. apply (Hvis u Hu). right. exact Hin.
  - assert (Hurl : In url (Crawler.discoveredUrls s))
      by (apply (Hdisc url depth); left; reflexivity).
    split; [| split].
    + intros u d Hin. apply in_app_iff. apply in_app_iff in Hin.
      destruct Hin as [Hin | Hin].
      * left. apply (Hdisc u d). right. exact Hin.
      * right. apply (in_queue_new u depth d new Hin).
    + rewrite map_app, map_map. cbn. rewrite map_id.
      apply NoDup_app; [exact Hnd' | exact Hnew |].
      intros u Hrest Hu. apply (Hfresh u Hu).
      apply in_map_iff in Hrest. destruct Hrest as ([u' d] & Heq & Hin).
      cbn in Heq. subst u'. apply (Hdisc u d). right. exact Hin.
    + intros u Hu. apply In_add in Hu.
      rewrite map_app, map_map. cbn. rewrite map_id. split.
      * apply in_app_iff. left.
        destruct Hu as [Hold | ->]; [apply Hvis, Hold | exact Hurl].
      * intros Hin. apply in_app_iff in Hin.
        destruct Hu as [Hold | ->].
        -- destruct Hin as [Hin | Hin].
           ++ apply (Hvis u Hold). right. exact Hin.
           ++ apply (Hfresh u Hin), Hvis, Hold.
        -- destruct Hin as [Hin | Hin];
             [exact (Hhead Hin) | exact (Hfresh url Hin Hurl)].
Qed.

Lemma Blocked_iteration (blocked : string) (s : Crawler.CrawlState) :
  Blocked maxDepth blocked s -> Blocked maxDepth blocked (iteration s).
Proof.
  intros (Hd & Hv & Hq).
  destruct (Crawler.queue s) as [| [url depth] rest] eqn:Hqueue;
    [rewrite iteration_empty_queue by exact Hqueue; unfold Blocked;
     rewrite Hqueue; auto |].
  destruct (iteration_cases baseOrigin maxPages maxDepth s url depth rest Hqueue)
    as [(_ & Hd' & Hv' & Hq') | (_ & Hdepth & new & Hd' & Hv' & Hq' & _ & Hfresh & _)];
    fold iteration in Hd', Hv', Hq'; unfold Blocked; rewrite Hd', Hv', Hq'.
  - repeat split; [exact Hd | exact Hv |].
    intros d Hin. apply Hq. right. exact Hin.
  - assert (Hne : blocked <> url).
    { intros ->. specialize (Hq depth (or_introl eq_refl)). lia. }
    repeat split.
    + apply in_app_iff. left. exact Hd.
    + intros Hin. apply In_add in Hin. destruct Hin as [Hin | Heq]; auto.
    + intros d Hin. apply in_app_iff in Hin. destruct Hin as [Hin | Hin].
      * apply Hq. right. exact Hin.
      * apply in_queue_new in Hin. contradiction (Hfresh blocked Hin Hd).
Qed.

Lemma visited_iteration (url : string) (s : Crawler.CrawlState) :
  In url (Crawler.visitedUrls s) -> In url (Crawler.visitedUrls (iteration s)).
Proof.
  intros Hin.
  destruct (Crawler.queue s) as [| [u depth] rest] eqn:Hq;
    [rewrite iteration_empty_queue by exact Hq; exact Hin |].
  destruct (iteration_cases baseOrigin maxPages maxDepth s u depth rest Hq)
    as [(_ & _ & Hv & _) | (_ & _ & new & _ & Hv & _)];
    fold iteration in Hv; rewrite Hv; [exact Hin |].
  apply In_add. left. exact Hin.
Qed.

Lemma queued_deep_is_blocked (url : string) (depth : Z) (s : Crawler.CrawlState) :
  QueueInv s -> In (url, depth) (Crawler.queue s) -> maxDepth < depth ->
  Blocked maxDepth url s.
Proof.
  intros (Hdisc & Hnd & Hvis) Hin Hdeep. repeat split.
  - apply (Hdisc url depth Hin).
  - intros Hv. apply (Hvis url Hv). apply (in_map fst) in Hin. exact Hin.
  - intros d Hd. replace d with depth; [exact Hdeep |].
    clear Hdisc Hvis. induction (Crawler.queue s) as [| [u0 d0] q IH];
      [destruct Hin |].
    cbn in Hnd. inversion Hnd as [| ? ? Hhead Hnd']; subst.
    destruct Hin as [Hin | Hin], Hd as [Hd | Hd].
    + congruence.
    + injection Hin as -> ->. contradiction Hhead.
      apply (in_map fst) in Hd. exact Hd.
    + injection Hd as -> ->. contradiction Hhead.
      apply (in_map fst) in Hin. exact Hin.
    + apply IH; assumption.
Qed.

(** A page found in the queue beyond [maxDepth] at some point of the run is
    visited at no point of the run. *)
Lemma deep_pages_never_visited (s0 : Crawler.CrawlState) (i j : nat)
    (url : string) (depth : Z) :
  QueueInv s0 ->
  In (url, depth) (Crawler.queue (run i s0)) -> maxDepth < depth ->
  ~ In url (Crawler.visitedUrls (run j s0)).
Proof.
  intros Hinv Hin Hdeep.
  assert (Hblocked : Blocked maxDepth url (run i s0)).
  { apply (queued_deep_is_blocked url depth); [| exact Hin | exact Hdeep].
    apply (run_invariant baseOrigin maxPages maxDepth QueueInv);
      [exact QueueInv_iteration | exact Hinv]. }
  destruct (Nat.le_gt_cases i j) as [Hle | Hgt].
  - replace j with (i + (j - i))%nat by lia. subst run. rewrite run_add.
    apply (run_invariant baseOrigin maxPages maxDepth (Blocked maxDepth url));
      [exact (Blocked_iteration url) | exact Hblocked].
  - intros Hv. destruct Hblocked as (_ & Hnot & _). apply Hnot.
    replace i with (j + (i - j))%nat by lia. subst run. rewrite run_add.
    apply (run_invariant baseOrigin maxPages maxDepth
             (fun s => In url (Crawler.visitedUrls s)));
      [exact (visited_iteration url) | exact Hv].
Qed.

(** The first discovered page stays first. *)
Lemma run_keeps_head (seed : string) (n : nat) (s : Crawler.CrawlState) :
  (exists rest, Crawler.discoveredUrls s = seed :: rest) ->
  exists rest, Crawler.discoveredUrls (run n s) = seed :: rest.
Proof.
  apply (run_invariant baseOrigin maxPages maxDepth
           (fun s => exists rest, Crawler.discoveredUrls s = seed :: rest)).
  clear s. intros s (rest & Hd). cbn beta. fold iteration.
  destruct (Crawler.queue s) as [| [u depth] q] eqn:Hq;
    [rewrite iteration_empty_queue by exact Hq; eauto |].
  destruct (iteration_cases baseOrigin maxPages maxDepth s u depth q Hq)
    as [(_ & Hd' & _) | (_ & _ & new & Hd' & _)];
    fold iteration in Hd'; rewrite Hd', Hd; eauto.
  exists (rest ++ new)%list. reflexivity.
Qed.

(** [discoveredUrls] stays within the larger of [maxPages] and its initial
    size. *)
Lemma run_size (bound : Z) (n : nat) (s : Crawler.CrawlState) :
  maxPages <= bound ->
  Crawler.size (Crawler.discoveredUrls s) <= bound ->
  Crawler.size (Crawler.discoveredUrls (run n s)) <= bound.
Proof.
  intros Hbound. subst run. revert s.
  induction n as [| n IH]; intros s Hs; cbn; [exact Hs |].
  destruct (Crawler.loopCond maxPages s) eqn:Hc; [| exact Hs].
  apply IH. destruct (iteration_decreases baseOrigin maxPages maxDepth s Hc)
    as (_ & Hle & _). cbn zeta in Hle. lia.
Qed.

End CrawlInvariants.

(** * Suffixes of strings *)

Section Suffixes.

Lemma list_ascii_app (a b : string) :
  list_ascii_of_string (a ++ b)
  = (list_ascii_of_string a ++ list_ascii_of_string b)%list.
Proof. induction a as [| c a IH]; cbn; [reflexivity | rewrite IH; reflexivity]. Qed.

Lemma string_of_list_app (l1 l2 : list ascii) :
  string_of_list_ascii (l1 ++ l2)
  = string_of_list_ascii l1 ++ string_of_list_ascii l2.
Proof. induction l1 as [| c l1 IH]; cbn; [reflexivity | rewrite IH; reflexivity]. Qed.

Lemma rev_app (a b : string) : Js.rev (a ++ b) = Js.rev b ++ Js.rev a.
Proof.
  unfold Js.rev. rewrite list_ascii_app, rev_app_distr. apply string_of_list_app.
Qed.

Lemma prefix_app (p a b : string) :
  String.prefix p a = true -> String.prefix p (a ++ b) = true.
Proof.
  revert a. induction p as [| c p IH]; intros a;
    [intros _; destruct (a ++ b); reflexivity |].
  destruct a as [| c' a]; cbn; [discriminate |].
  destruct (ascii_dec c c'); [apply IH | discriminate].
Qed.

Lemma toLowerCase_app (a b : string) :
  toLowerCase (a ++ b) = toLowerCase a ++ toLowerCase b.
Proof. induction a as [| c a IH]; cbn; [reflexivity | rewrite IH; reflexivity]. Qed.

Lemma endsWith_app (a b ext : string) :
  endsWith (toLowerCase b) ext = true ->
  endsWith (toLowerCase (a ++ b)) ext = true.
Proof.
  unfold endsWith. intros Hb. rewrite toLowerCase_app, rev_app.
  apply prefix_app, Hb.
Qed.

Lemma append_empty (a : string) : a ++ "" = a.
Proof. induction a as [| c a IH]; cbn; [reflexivity | rewrite IH; reflexivity]. Qed.

End Suffixes.

(** * [crawlWebsite] *)

Section CrawlWebsite.
Context `{Host} `{Net}.

Lemma crawlInit_discovered (baseUrl : string) :
  Crawler.discoveredUrls (Crawler.crawlInit baseUrl) = [baseUrl].
Proof. reflexivity. Qed.

Lemma crawlInit_QueueInv (baseUrl : string) : QueueInv (Crawler.crawlInit baseUrl).
Proof.
  split; [| split]; cbn.
  - intros url depth [Heq | []]. injection Heq as <- _. left. reflexivity.
  - repeat constructor. intros [].
  - intros url [].
Qed.

(** With enough fuel [crawlWebsite] resolves to the pages discovered when
    the loop ends. *)
Lemma crawlWebsite_resolves (baseUrl : string) (u : URL) (maxPages maxDepth : Z)
    (fuel : nat) :
  newURL baseUrl = Some u ->
  (crawlMeasure maxPages (Crawler.crawlInit baseUrl) <= fuel)%nat ->
  exists events,
    Crawler.crawlWebsite fuel baseUrl maxPages maxDepth
    = Some (Normal
              (Crawler.discoveredUrls
                 (Crawler.crawlRun (u_origin u) maxPages maxDepth fuel
                    (Crawler.crawlInit baseUrl)),
               events)).
Proof.
  intros Hu Hfuel. unfold Crawler.crawlWebsite. rewrite Hu.
  destruct (crawlLoop_terminates (u_origin u) maxPages maxDepth fuel
              (Crawler.crawlInit baseUrl) Hfuel) as (s & Hloop & _).
  rewrite Hloop.
  destruct (crawlLoop_is_run (u_origin u) maxPages maxDepth fuel _ s Hloop)
    as (-> & _).
  eexists. reflexivity.
Qed.

(** C9.  The crawl loop terminates.  An iteration either adds pages to
    [discoveredUrls], which lowers [maxPages - |discoveredUrls|], or leaves
    [discoveredUrls] unchanged and shortens the queue; after an iteration
    [discoveredUrls] has at most [maxPages] elements.  So with enough fuel
    [crawlWebsite] settles, whatever the fetches give: it resolves to a
    list when the seed parses as a URL, and rejects at once otherwise. *)
Theorem crawl_terminates (baseUrl : string) (maxPages maxDepth : Z) :
  (forall baseOrigin s,
     Crawler.loopCond maxPages s = true ->
     let s' := Crawler.crawlIteration baseOrigin maxPages maxDepth s in
     (maxPages - Crawler.size (Crawler.discoveredUrls s')
        < maxPages - Crawler.size (Crawler.discoveredUrls s)
      \/ (Crawler.discoveredUrls s' = Crawler.discoveredUrls s
          /\ (List.length (Crawler.queue s') < List.length (Crawler.queue s))%nat))
     /\ Crawler.size (Crawler.discoveredUrls s') <= maxPages)
  /\ exists fuel,
       forall fuel', (fuel <= fuel')%nat ->
         exists outcome,
           Crawler.crawlWebsite fuel' baseUrl maxPages maxDepth = Some outcome
           /\ (newURL baseUrl <> None ->
               exists urls events, outcome = Normal (urls, events)).
Proof.
  split.
  - intros baseOrigin s Hc.
    destruct (iteration_decreases baseOrigin maxPages maxDepth s Hc) as (Hd & Hle & _).
    split; assumption.
  - exists (crawlMeasure maxPages (Crawler.crawlInit baseUrl)).
    intros fuel Hfuel. destruct (newURL baseUrl) as [u |] eqn:Hu.
    + destruct (crawlWebsite_resolves baseUrl u maxPages maxDepth fuel Hu Hfuel)
        as (events & Hret).
      eexists. split; [exact Hret |]. intros _. eauto.
    + unfold Crawler.crawlWebsite. rewrite Hu. eexists. split; [reflexivity |].
      intros Hne. contradiction Hne. reflexivity.
Qed.

(** C10.  The seed URL is the first element of the list that
    [crawlWebsite] resolves to, as it was given: it is put in
    [discoveredUrls] before the loop and nothing is removed or reordered.
    This holds whatever the fetches give, the fetch of the seed included. *)
Theorem seed_is_first (baseUrl : string) (u : URL) (maxPages maxDepth : Z) :
  newURL baseUrl = Some u ->
  exists fuel,
    forall fuel', (fuel <= fuel')%nat ->
      exists rest events,
        Crawler.crawlWebsite fuel' baseUrl maxPages maxDepth
        = Some (Normal (baseUrl :: rest, events)).
Proof.
  intros Hu. exists (crawlMeasure maxPages (Crawler.crawlInit baseUrl)).
  intros fuel Hfuel.
  destruct (crawlWebsite_resolves baseUrl u maxPages maxDepth fuel Hu Hfuel)
    as (events & Hret).
  destruct (run_keeps_head (u_origin u) maxPages maxDepth baseUrl fuel
              (Crawler.crawlInit baseUrl)) as (rest & Hhead);
    [exists []; reflexivity |].
  exists rest, events. rewrite Hret, Hhead. reflexivity.
Qed.

(** C7 (as amended).  The list that [crawlWebsite] resolves to has at most
    [max(maxPages, 1)] elements, the seed being always in it; and a page
    that is in the queue with a depth above [maxDepth] at some point of the
    crawl is visited (fetched) at no point of the crawl. *)
Theorem crawl_bounds (baseUrl : string) (u : URL) (maxPages maxDepth : Z) :
  newURL baseUrl = Some u ->
  let run := fun n =>
    Crawler.crawlRun (u_origin u) maxPages maxDepth n (Crawler.crawlInit baseUrl) in
  (exists fuel,
     forall fuel', (fuel <= fuel')%nat ->
       exists urls events,
         Crawler.crawlWebsite fuel' baseUrl maxPages maxDepth
         = Some (Normal (urls, events))
         /\ urls = Crawler.discoveredUrls (run fuel')
         /\ Z.of_nat (List.length urls) <= Z.max maxPages 1)
  /\ (forall i j url depth,
        In (url, depth) (Crawler.queue (run i)) -> maxDepth < depth ->
        ~ In url (Crawler.visitedUrls (run j))).
Proof.
  intros Hu run. split.
  - exists (crawlMeasure maxPages (Crawler.crawlInit baseUrl)).
    intros fuel Hfuel.
    destruct (crawlWebsite_resolves baseUrl u maxPages maxDepth fuel Hu Hfuel)
      as (events & Hret).
    eexists. exists events. split; [exact Hret |]. split; [reflexivity |].
    apply (run_size (u_origin u) maxPages maxDepth (Z.max maxPages 1)); [lia |].
    cbn. lia.
  - intros i j url depth.
    apply (deep_pages_never_visited (u_origin u) maxPages maxDepth
             (Crawler.crawlInit baseUrl) i j url depth).
    apply crawlInit_QueueInv.
Qed.

(** Where the URL has no query string, the test on the whole URL does see
    the extension of the path. *)
Lemma no_query_resource (u : URL) :
  u_search u = "" -> pathHasNonPageExtension u = true ->
  Crawler.isNonPageResource (toString (clearHash u)) = true.
Proof.
  unfold pathHasNonPageExtension, Crawler.isNonPageResource, toString.
  cbn [clearHash u_site u_pathname u_search u_hash]. intros -> Hpath.
  rewrite append_empty. apply existsb_exists in Hpath.
  destruct Hpath as (ext & Hin & Hends). apply existsb_exists.
  exists ext. split; [exact Hin | apply endsWith_app, Hends].
Qed.

(** A link that [extractLinks] keeps does not end with a non-page
    extension. *)
Lemma linkOf_kept (currentUrl baseOrigin : string) (anchor : Element)
    (link : string) :
  Crawler.linkOf currentUrl baseOrigin anchor = Some link ->
  Crawler.isNonPageResource link = false.
Proof.
  unfold Crawler.linkOf.
  destruct (getAttribute anchor "href") as [[| c0 s0] |]; try discriminate.
  destruct (_ || _)%bool; try discriminate.
  destruct (resolveURL _ currentUrl) as [absoluteUrl |]; try discriminate.
  destruct (negb _); try discriminate.
  destruct (Crawler.isNonPageResource (toString (clearHash absoluteUrl))) eqn:Hres;
    try discriminate.
  intros Heq. injection Heq as <-. exact Hres.
Qed.

End CrawlWebsite.

(** The first iteration of a crawl of the example site. *)
Lemma crawl_terminates_witness :
  let s := Crawler.crawlInit Demo.home in
  let s' := Crawler.crawlIteration Demo.site 50 3 s in
  Crawler.loopCond 50 s = true
  /\ (50 - Crawler.size (Crawler.discoveredUrls s')
        < 50 - Crawler.size (Crawler.discoveredUrls s)
      \/ (Crawler.discoveredUrls s' = Crawler.discoveredUrls s
          /\ (List.length (Crawler.queue s') < List.length (Crawler.queue s))%nat))
  /\ exists fuel outcome, Crawler.crawlWebsite fuel Demo.home 50 3 = Some outcome.
Proof.
  destruct (crawl_terminates Demo.home 50 3) as (Hstep & fuel & Hsettles).
  split; [reflexivity | split].
  - apply (Hstep Demo.site (Crawler.crawlInit Demo.home)). reflexivity.
  - destruct (Hsettles fuel (le_n fuel)) as (outcome & Hret & _).
    exists fuel, outcome. exact Hret.
Defined.

(** A seed with a non-page extension whose fetch is rejected, and a seed
    with a fragment: both come back as given. *)
Lemma seed_is_first_witness :
  Crawler.isNonPageResource Demo.handbook = true
  /\ fetch Demo.handbook = Rejected "Failed to fetch"
  /\ (exists fuel rest events,
        Crawler.crawlWebsite fuel Demo.handbook 50 3
        = Some (Normal (Demo.handbook :: rest, events)))
  /\ (exists fuel rest events,
        Crawler.crawlWebsite fuel Demo.team 50 3
        = Some (Normal (Demo.team :: rest, events))).
Proof.
  split; [reflexivity | split; [reflexivity | split]].
  - destruct (@seed_is_first Demo.host Demo.net Demo.handbook
                {| u_site := Demo.site; u_origin := Demo.site;
                   u_hostname := "localhost"; u_pathname := "/handbook.pdf";
                   u_search := ""; u_hash := "" |} 50 3
                ltac:(vm_compute; reflexivity))
      as (fuel & Hfirst).
    destruct (Hfirst fuel (le_n fuel)) as (rest & events & Hret).
    exists fuel, rest, events. exact Hret.
  - destruct (@seed_is_first Demo.host Demo.net Demo.team
                {| u_site := Demo.site; u_origin := Demo.site;
                   u_hostname := "localhost"; u_pathname := "/about";
                   u_search := ""; u_hash := "#team" |} 50 3
                ltac:(vm_compute; reflexivity))
      as (fuel & Hfirst).
    destruct (Hfirst fuel (le_n fuel)) as (rest & events & Hret).
    exists fuel, rest, events. exact Hret.
Defined.

(** With [maxDepth = 0] the page linked from the seed is queued at depth 1
    and never visited. *)
Lemma crawl_bounds_witness :
  let run := fun n =>
    Crawler.crawlRun Demo.site 50 0 n (Crawler.crawlInit Demo.home) in
  In (Demo.about, 1) (Crawler.queue (run 1%nat))
  /\ 0 < 1
  /\ ~ In Demo.about (Crawler.visitedUrls (run 5%nat)).
Proof.
  intros run.
  destruct (@crawl_bounds Demo.host Demo.net Demo.home
              {| u_site := Demo.site; u_origin := Demo.site;
                 u_hostname := "localhost"; u_pathname := "/";
                 u_search := ""; u_hash := "" |} 50 0
              ltac:(vm_compute; reflexivity))
    as (_ & Hdeep).
  assert (Hqueued : In (Demo.about, 1) (Crawler.queue (run 1%nat)))
    by (left; reflexivity).
  split; [exact Hqueued | split; [lia |]].
  apply (Hdeep 1%nat 5%nat Demo.about 1 Hqueued). lia.
Defined.

(** C7, as stated, fails.  With [maxPages = 0] the loop does not run and
    the list is the seed alone: one element, more than [maxPages]. *)
Lemma zero_budget_returns_seed :
  Crawler.crawlWebsite 0 Demo.home 0 3
    = Some (Normal ([Demo.home], [Crawler.CrawlCompleted 1 0]))
  /\ ~ (Z.of_nat (List.length [Demo.home]) <= 0).
Proof. split; [vm_compute; reflexivity | cbn; lia]. Qed.

(** C8.  The test for non-page resources looks at the end of the whole
    URL, not of its path: a link to [/report.pdf?download=1], whose path
    has the extension [.pdf], ends with the query string, is kept by
    [extractLinks] and ends up in the list of [crawlWebsite]. *)
Theorem query_string_keeps_resource :
  exists u,
    resolveURL Demo.report Demo.home = Some u
    /\ u_pathname u = "/report.pdf"
    /\ u_search u = "?download=1"
    /\ pathHasNonPageExtension u = true
    /\ Crawler.isNonPageResource (toString (clearHash u)) = false
    /\ Crawler.extractLinks (Demo.about ++ " " ++ Demo.report) Demo.home Demo.site
       = Normal [Demo.about; Demo.report]
    /\ exists events,
         Crawler.crawlWebsite 10 Demo.home 50 3
         = Some (Normal ([Demo.home; Demo.about; Demo.report], events)).
Proof.
  eexists. split; [vm_compute; reflexivity |].
  repeat split; try (vm_compute; reflexivity).
  eexists. vm_compute. reflexivity.
Qed.

(** * Further properties of the rule engine *)

Section EngineFacts.
Context `{Host}.

Lemma scanDocument_as_lists (dgaRules : list Rule) (doc : Doc)
    (pageUrl : option string) :
  let outcome := Scanner.evalRule (Scanner.annotate doc pageUrl) pageUrl in
  Scanner.scanDocument dgaRules doc pageUrl
  = finishReport (Scanner.reportPageUrl pageUrl)
      (flat_map (fun rule => violationsOf (outcome rule)) dgaRules,
       flat_map (fun rule => passedOf (outcome rule)) dgaRules).
Proof. unfold Scanner.scanDocument. cbn zeta. rewrite push_fold. reflexivity. Qed.

Lemma evalGlobal_entry (rule : Rule) (globalCheck : Doc -> Completion CheckValue)
    (doc : Doc) (pageUrl : option string) :
  (exists v, Scanner.evalGlobal rule globalCheck doc pageUrl = ViolationEntry v
             /\ v_id v = r_id rule /\ v_type v = r_type rule)
  \/ Scanner.evalGlobal rule globalCheck doc pageUrl = PassedEntry (passedEntry rule).
Proof.
  unfold Scanner.evalGlobal. destruct (globalCheck doc) as [value | message]; cbn.
  - destruct value as [[|] | [|] reason fixText | | t]; cbn;
      try (right; reflexivity); left; eexists; repeat split; reflexivity.
  - left. eexists. repeat split; reflexivity.
Qed.

Lemma evalElements_entry (rule : Rule) (selector : string)
    (check : Element -> Completion CheckValue) (doc : Doc)
    (pageUrl : option string) :
  (exists v, Scanner.evalElements rule selector check doc pageUrl = ViolationEntry v
             /\ v_id v = r_id rule /\ v_type v = r_type rule)
  \/ Scanner.evalElements rule selector check doc pageUrl
     = PassedEntry (passedEntry rule).
Proof.
  unfold Scanner.evalElements. cbn zeta.
  destruct (allPass _); [right; reflexivity |].
  left. eexists. repeat split; reflexivity.
Qed.

(** A rule gives one entry when it is evaluable and none otherwise; the
    entry is the rule's. *)
Lemma evalRule_entry (doc : Doc) (pageUrl : option string) (rule : Rule) :
  let o := Scanner.evalRule doc pageUrl rule in
  (evaluable rule = false /\ o = NoEntry)
  \/ (evaluable rule = true /\ r_type rule = automated
      /\ ((exists v, o = ViolationEntry v /\ v_id v = r_id rule
                     /\ v_type v = automated)
          \/ o = PassedEntry (passedEntry rule))).
Proof.
  unfold Scanner.evalRule, evaluable. cbn zeta.
  destruct (r_type rule) eqn:Htype; [| left; auto].
  destruct (r_globalCheck rule) as [globalCheck |].
  - right. split; [reflexivity | split; [reflexivity |]].
    destruct (evalGlobal_entry rule globalCheck doc pageUrl)
      as [(v & Hv & Hid & Hty) | Hp]; [left | right; exact Hp].
    exists v. rewrite Htype in Hty. auto.
  - destruct (r_selector rule) as [[| c s] |]; try (left; auto; fail).
    destruct (r_check rule) as [check |]; [| left; auto].
    right. split; [reflexivity | split; [reflexivity |]].
    destruct (evalElements_entry rule (String c s) check doc pageUrl)
      as [(v & Hv & Hid & Hty) | Hp]; [left | right; exact Hp].
    exists v. rewrite Htype in Hty. auto.
Qed.

Lemma flat_map_filter {A B : Type} (keep : A -> bool) (f : A -> list B)
    (l : list A) :
  (forall a, keep a = false -> f a = []) ->
  flat_map f (filter keep l) = flat_map f l.
Proof.
  intros Hdrop. induction l as [| a l IH]; cbn; [reflexivity |].
  destruct (keep a) eqn:Hkeep; cbn; rewrite IH; [reflexivity |].
  rewrite (Hdrop a Hkeep). reflexivity.
Qed.

Lemma manual_no_entry (doc : Doc) (pageUrl : option string) (rule : Rule) :
  isAutomated rule = false -> Scanner.evalRule doc pageUrl rule = NoEntry.
Proof.
  unfold isAutomated, Scanner.evalRule. destruct (r_type rule);
    [discriminate | reflexivity].
Qed.

(** X1.  Manual rules are not scored: the report is the one of the
    catalogue without its manual rules, and every entry of [violations] and
    of [passed] comes from an automated rule. *)
Theorem manual_rules_not_scored (dgaRules : list Rule) (doc : Doc)
    (pageUrl : option string) :
  let r := Scanner.scanDocument dgaRules doc pageUrl in
  Scanner.scanDocument (filter isAutomated dgaRules) doc pageUrl = r
  /\ Forall (fun v => v_type v = automated) (pr_violations r)
  /\ Forall (fun p => p_type p = automated) (pr_passed r).
Proof.
  cbn zeta. rewrite !scanDocument_as_lists. cbn zeta.
  split; [| split].
  - rewrite !flat_map_filter; [reflexivity | |];
      intros rule Hm; rewrite manual_no_entry by exact Hm; reflexivity.
  - cbn. apply Forall_forall. intros v Hin. apply in_flat_map in Hin.
    destruct Hin as (rule & _ & Hv).
    destruct (evalRule_entry (Scanner.annotate doc pageUrl) pageUrl rule)
      as [(_ & Ho) | (_ & _ & [(v' & Ho & _ & Hty) | Ho])];
      cbn zeta in Ho; rewrite Ho in Hv; cbn in Hv; try contradiction.
    destruct Hv as [<- | []]. exact Hty.
  - cbn. apply Forall_forall. intros p Hin. apply in_flat_map in Hin.
    destruct Hin as (rule & _ & Hp).
    destruct (evalRule_entry (Scanner.annotate doc pageUrl) pageUrl rule)
      as [(_ & Ho) | (_ & Hty & [(v' & Ho & _) | Ho])];
      cbn zeta in Ho; rewrite Ho in Hp; cbn in Hp; try contradiction.
    destruct Hp as [<- | []]. exact Hty.
Qed.

Lemma entries_count (doc : Doc) (pageUrl : option string) (rules : list Rule) :
  let outcome := Scanner.evalRule doc pageUrl in
  (List.length (flat_map (fun rule => violationsOf (outcome rule)) rules)
   + List.length (flat_map (fun rule => passedOf (outcome rule)) rules))%nat
  = List.length (filter evaluable rules).
Proof.
  cbn zeta. induction rules as [| rule rules IH]; cbn; [reflexivity |].
  rewrite !length_app.
  destruct (evalRule_entry doc pageUrl rule)
    as [(He & Ho) | (He & _ & [(v & Ho & _) | Ho])];
    cbn zeta in Ho; rewrite Ho, He; cbn; lia.
Qed.

(** X2.  Every evaluable rule of the catalogue gives exactly one entry, in
    [violations] or in [passed]: [totalChecks] is the number of evaluable
    rules, whatever the document, and the two lists keep the order of the
    catalogue. *)
Theorem one_entry_per_evaluable_rule (dgaRules : list Rule) (doc : Doc)
    (pageUrl : option string) :
  let r := Scanner.scanDocument dgaRules doc pageUrl in
  pr_totalChecks r = List.length (filter evaluable dgaRules)
  /\ (List.length (pr_violations r) + List.length (pr_passed r))%nat
     = List.length (filter evaluable dgaRules)
  /\ exists failed,
       List.map v_id (pr_violations r) = List.map r_id (filter failed dgaRules)
       /\ List.map p_id (pr_passed r)
          = List.map r_id
              (filter (fun rule => (evaluable rule && negb (failed rule))%bool)
                 dgaRules).
Proof.
  cbn zeta. rewrite scanDocument_as_lists. cbn zeta.
  unfold finishReport. cbn [pr_totalChecks pr_violations pr_passed fst snd].
  set (d := Scanner.annotate doc pageUrl).
  split; [apply entries_count | split; [apply entries_count |]].
  exists (fun rule =>
            match Scanner.evalRule d pageUrl rule with
            | ViolationEntry _ => true
            | _ => false
            end).
  split.
  - induction dgaRules as [| rule rules IH]; cbn; [reflexivity |].
    rewrite map_app, IH.
    destruct (evalRule_entry d pageUrl rule)
      as [(_ & Ho) | (_ & _ & [(v & Ho & Hid & _) | Ho])];
      cbn zeta in Ho; rewrite Ho; cbn; [reflexivity | | reflexivity].
    rewrite Hid. reflexivity.
  - induction dgaRules as [| rule rules IH]; cbn; [reflexivity |].
    rewrite map_app, IH.
    destruct (evalRule_entry d pageUrl rule)
      as [(He & Ho) | (He & _ & [(v & Ho & _) | Ho])];
      cbn zeta in Ho; rewrite Ho, He; cbn; reflexivity.
Qed.

End EngineFacts.

Section ElementRules.
Context `{Host}.
Variable check : Element -> Completion CheckValue.

Lemma elementStep_allPass (elements : list Element) (acc : ElementsAcc) :
  allPass (fold_left (Scanner.elementStep check) elements acc)
  = (allPass acc && forallb (elementPasses check) elements)%bool.
Proof.
  revert acc. induction elements as [| e elements IH]; intros acc; cbn.
  - rewrite andb_true_r. reflexivity.
  - rewrite IH. unfold Scanner.elementStep, elementPasses.
    destruct (check e) as [value |]; cbn.
    + destruct (Scanner.checkPassed value) eqn:Hp; cbn; [reflexivity |].
      destruct value; cbn; rewrite ?andb_false_r; reflexivity.
    + rewrite andb_false_r. reflexivity.
Qed.

Lemma elementStep_preview_kept (elements : list Element) (acc : ElementsAcc) :
  truthy (preview acc) = true ->
  preview (fold_left (Scanner.elementStep check) elements acc) = preview acc.
Proof.
  revert acc. induction elements as [| e elements IH]; intros acc Hacc; cbn;
    [reflexivity |].
  assert (Hstep : preview (Scanner.elementStep check acc e) = preview acc).
  { unfold Scanner.elementStep. destruct (check e) as [value |]; [| reflexivity].
    destruct (Scanner.checkPassed value); [reflexivity |].
    rewrite Hacc. destruct value; reflexivity. }
  rewrite IH; rewrite Hstep; [reflexivity | exact Hacc].
Qed.

Lemma elementStep_preview_untouched (elements : list Element) (acc : ElementsAcc) :
  forallb (fun e => negb (elementFails check e)) elements = true ->
  preview (fold_left (Scanner.elementStep check) elements acc) = preview acc.
Proof.
  revert acc. induction elements as [| e elements IH]; intros acc Hall; cbn;
    [reflexivity |].
  cbn in Hall. apply andb_true_iff in Hall. destruct Hall as (He & Hall).
  rewrite IH by exact Hall. unfold Scanner.elementStep.
  unfold elementFails in He. destruct (check e) as [value |]; [| reflexivity].
  destruct (Scanner.checkPassed value); [reflexivity | discriminate].
Qed.

(** X3.  A selector rule passes exactly when the predicate returns a
    passing value on every matched element (an element on which it throws
    counts as failing); and the preview of its violation is the snippet of
    the first matched element on which the predicate returned a failing
    value, when that snippet is not empty. *)
Theorem selector_rule_outcome (rule : Rule) (doc : Doc) (pageUrl : option string)
    (selector : string) :
  r_type rule = automated -> r_globalCheck rule = None ->
  r_selector rule = Some selector -> selector <> "" ->
  r_check rule = Some check ->
  let elements := querySelectorAll doc selector in
  let o := Scanner.evalRule doc pageUrl rule in
  (forallb (elementPasses check) elements = true ->
   o = PassedEntry (passedEntry rule))
  /\ (forallb (elementPasses check) elements = false ->
      exists v, o = ViolationEntry v /\ v_id v = r_id rule)
  /\ (forall before e after,
        elements = (before ++ e :: after)%list ->
        forallb (fun x => negb (elementFails check x)) before = true ->
        elementFails check e = true ->
        substring0 1000 (outerHTML e) <> "" ->
        exists v, o = ViolationEntry v
                  /\ v_preview v = Some (substring0 1000 (outerHTML e))).
Proof.
  intros Htype Hglobal Hsel Hne Hcheck elements o.
  assert (Ho : o = Scanner.evalElements rule selector check doc pageUrl).
  { subst o. unfold Scanner.evalRule. rewrite Htype, Hglobal, Hsel, Hcheck.
    destruct selector; [contradiction Hne; reflexivity | reflexivity]. }
  rewrite Ho. unfold Scanner.evalElements. fold elements. cbn zeta.
  set (init := {| allPass := true; preview := None;
                  violationReason := None; howToFix := None |}).
  assert (Hfinal : (if (0 <? List.length elements)%nat
                    then fold_left (Scanner.elementStep check) elements init
                    else init)
                   = fold_left (Scanner.elementStep check) elements init).
  { destruct elements; reflexivity. }
  rewrite Hfinal. clear Hfinal.
  split; [| split].
  - intros Hall. rewrite elementStep_allPass, Hall. reflexivity.
  - intros Hall. rewrite elementStep_allPass, Hall. cbn.
    eexists. split; reflexivity.
  - intros before e after Hsplit Hbefore He Hsnippet.
    assert (Hfails : forallb (elementPasses check) elements = false).
    { rewrite Hsplit, forallb_app. cbn. unfold elementPasses, elementFails in *.
      destruct (check e) as [value |]; [| discriminate].
      destruct (Scanner.checkPassed value); [discriminate |].
      cbn. apply andb_false_r. }
    rewrite elementStep_allPass, Hfails. cbn.
    eexists. split; [reflexivity |]. cbn.
    rewrite Hsplit, fold_left_app. cbn [fold_left].
    rewrite elementStep_preview_kept.
    + unfold Scanner.elementStep at 1. unfold elementFails in He.
      destruct (check e) as [value |]; [| discriminate].
      destruct (Scanner.checkPassed value); [discriminate |].
      rewrite (elementStep_preview_untouched before init Hbefore). cbn.
      destruct value; reflexivity.
    + unfold Scanner.elementStep at 1. unfold elementFails in He.
      destruct (check e) as [value |]; [| discriminate].
      destruct (Scanner.checkPassed value); [discriminate |].
      rewrite (elementStep_preview_untouched before init Hbefore). cbn.
      destruct (substring0 1000 (outerHTML e)) eqn:Hs;
        [contradiction Hsnippet; reflexivity |].
      destruct value; reflexivity.
Qed.

End ElementRules.

(** On a page with a link to [about] and a link to the report, the rule on
    links fails, with the second link as preview. *)
Lemma selector_rule_outcome_witness :
  let doc := [Demo.about; Demo.report] in
  forallb (elementPasses Sample.linkCheck) doc = false
  /\ exists v,
       Scanner.evalRule doc None Sample.linkRule = ViolationEntry v
       /\ v_preview v = Some (substring0 1000 (outerHTML Demo.report)).
Proof.
  intros doc. split; [reflexivity |].
  destruct (selector_rule_outcome Sample.linkCheck Sample.linkRule doc None
              "a[href]" eq_refl eq_refl eq_refl ltac:(discriminate) eq_refl)
    as (_ & _ & Hpreview).
  apply (Hpreview [Demo.about] Demo.report []); try reflexivity.
  vm_compute. discriminate.
Defined.

Section GlobalRules.
Context `{Host}.

Lemma scanDocument_split (before after : list Rule) (rule : Rule) (doc : Doc)
    (pageUrl : option string) :
  let scan := fun rules => Scanner.scanDocument rules doc pageUrl in
  let o := Scanner.evalRule (Scanner.annotate doc pageUrl) pageUrl rule in
  pr_violations (scan (before ++ rule :: after)%list)
    = (pr_violations (scan before) ++ violationsOf o
         ++ pr_violations (scan after))%list
  /\ pr_passed (scan (before ++ rule :: after)%list)
     = (pr_passed (scan before) ++ passedOf o ++ pr_passed (scan after))%list.
Proof.
  cbn beta zeta. rewrite !scanDocument_as_lists. cbn zeta.
  unfold finishReport. cbn [pr_violations pr_passed fst snd].
  rewrite !flat_map_app. cbn [flat_map]. split; reflexivity.
Qed.

(** X4.  In the second copy of [dgaScanner.js] a [globalCheck] that throws
    makes its rule a violation, placed among the others in catalogue
    order, whose preview and reason quote the message of the error; the
    rule adds nothing to [passed]. *)
Theorem throwing_global_check_recorded (before after : list Rule) (rule : Rule)
    (doc : Doc) (pageUrl : option string)
    (globalCheck : Doc -> Completion CheckValue) (message : string) :
  r_type rule = automated -> r_globalCheck rule = Some globalCheck ->
  globalCheck (Scanner.annotate doc pageUrl) = Throw message ->
  let scan := fun rules => Scanner.scanDocument rules doc pageUrl in
  let entry :=
    violationEntry rule (Scanner.reportPageUrl pageUrl)
      (Some ("Error during check: " ++ message))
      (Some ("Check failed with error: " ++ message))
      (Some "Review rule implementation and ensure proper DOM structure") in
  pr_violations (scan (before ++ rule :: after)%list)
    = (pr_violations (scan before) ++ entry :: pr_violations (scan after))%list
  /\ pr_passed (scan (before ++ rule :: after)%list)
     = (pr_passed (scan before) ++ pr_passed (scan after))%list.
Proof.
  intros Htype Hglobal Hthrow scan entry. subst entry.
  destruct (scanDocument_split before after rule doc pageUrl) as (Hv & Hp).
  cbn zeta in Hv, Hp. subst scan. cbn beta. rewrite Hv, Hp.
  unfold Scanner.evalRule. rewrite Htype, Hglobal.
  unfold Scanner.evalGlobal. rewrite Hthrow. cbn. split; reflexivity.
Qed.

End GlobalRules.

(** The throwing rule between the two rules of the small catalogue. *)
Lemma throwing_global_check_recorded_witness :
  let scan := fun rules => Scanner.scanDocument rules [Demo.about] None in
  List.map v_id
    (pr_violations (scan [Demo.imageRule; Sample.throwingRule; Demo.anchorsRule]))
  = ["41"; "40"]
  /\ pr_passed (scan [Demo.imageRule; Sample.throwingRule; Demo.anchorsRule])
     = (pr_passed (scan [Demo.imageRule]) ++ pr_passed (scan [Demo.anchorsRule]))%list.
Proof.
  intros scan.
  destruct (throwing_global_check_recorded [Demo.imageRule] [Demo.anchorsRule]
              Sample.throwingRule [Demo.about] None Sample.throwingCheck
              "a.href.includes is not a function" eq_refl eq_refl eq_refl)
    as (Hv & Hp).
  split; [| exact Hp].
  change (List.map v_id
            (pr_violations
               (scan ([Demo.imageRule] ++ Sample.throwingRule :: [Demo.anchorsRule])%list))
          = ["41"; "40"]).
  cbn zeta in Hv. subst scan. cbn beta. rewrite Hv. reflexivity.
Defined.

(** * Further properties of [scanUrl] and of the aggregation *)

Section ScanUrlFacts.
Context `{Host} `{Net}.
Variable dgaRules : list Rule.

(** X5.  [scanUrl] always resolves, either to the error-shaped report
    (score 0, no entries, [totalChecks] 0, the URL, and the message) or to
    the report of [scanDocument] on the parsed body, with the URL as page
    URL.  The body is fetched from the URL itself where [window] is not
    defined or the host is [localhost] or [127.0.0.1], and from
    [/api/proxy?url=...] otherwise. *)
Theorem scanUrl_report_or_error (url : string) :
  exists r,
    Scanner.scanUrl dgaRules url = Normal r
    /\ ((errorShaped url r /\ pr_score r = 0 /\ pr_violations r = []
         /\ pr_passed r = [] /\ pr_totalChecks r = 0%nat /\ pr_pageUrl r = url)
        \/ (exists u text doc,
              newURL url = Some u
              /\ fetchText (match windowHref with
                            | None => url
                            | Some _ => if isLocalhost u then url else proxied url
                            end) = Normal text
              /\ Scanner.parseDocument text url = Normal doc
              /\ r = Scanner.scanDocument dgaRules doc (Some url)
              /\ pr_error r = None)).
Proof.
  assert (Hgen : forall fetchUrl,
            exists r,
              tryCatch
                (text <- fetchText fetchUrl ;;
                 doc <- Scanner.parseDocument text url ;;
                 Normal (Scanner.scanDocument dgaRules doc (Some url)))
                (errorReport url) = r
              /\ ((errorShaped url r /\ pr_score r = 0 /\ pr_violations r = []
                   /\ pr_passed r = [] /\ pr_totalChecks r = 0%nat
                   /\ pr_pageUrl r = url)
                  \/ (exists text doc,
                        fetchText fetchUrl = Normal text
                        /\ Scanner.parseDocument text url = Normal doc
                        /\ r = Scanner.scanDocument dgaRules doc (Some url)
                        /\ pr_error r = None))).
  { intros fetchUrl.
    destruct (fetchText fetchUrl) as [text |] eqn:Htext; cbn;
      [| eexists; split; [reflexivity |]; left; repeat split; eexists; reflexivity].
    destruct (Scanner.parseDocument text url) as [doc |] eqn:Hdoc; cbn;
      [| eexists; split; [reflexivity |]; left; repeat split; eexists; reflexivity].
    eexists. split; [reflexivity |]. right. exists text, doc.
    repeat split; assumption || reflexivity. }
  unfold Scanner.scanUrl, parseURL.
  destruct (newURL url) as [u |] eqn:Hu; cbn [Js.bind];
    [| eexists; split; [reflexivity |]; left; repeat split; eexists; reflexivity].
  destruct (Hgen (match windowHref with
                  | None => url
                  | Some _ => if isLocalhost u then url else proxied url
                  end)) as (r & Hr & Hcases).
  exists r. split.
  - rewrite <- Hr. destruct windowHref; reflexivity.
  - destruct Hcases as [Herr | (text & doc & Ht & Hd & Hscan & Hnone)];
      [left; exact Herr | right].
    exists u, text, doc. repeat split; assumption.
Qed.

Lemma flat_map_nil {A B : Type} (f : A -> list B) (l : list A) :
  (forall a, f a = []) -> flat_map f l = [].
Proof.
  intros Hf. induction l as [| a l IH]; cbn; [reflexivity |].
  rewrite Hf, IH. reflexivity.
Qed.

(** X6.  The copy of the scanner that follows the catalogue never scans a
    page: its [scanUrl] names an undeclared variable once the body is read,
    so every URL gives the error-shaped report, and its [scanMultipleUrls]
    reports the score 100, the status Compliant and no violation for every
    list of URLs. *)
Theorem catalogue_copy_never_scans (urls : list string) :
  (forall url,
     exists message,
       ScannerCatalogue.scanUrl dgaRules url = Normal (errorReport url message))
  /\ let r := fst (ScannerCatalogue.scanMultipleUrls dgaRules urls) in
     ar_score r = 100 /\ ar_status r = Compliant /\ ar_violations r = []
     /\ ar_passed r = [] /\ ar_totalChecks r = 0%nat.
Proof.
  assert (Hurl : forall url,
            exists message,
              ScannerCatalogue.scanUrl dgaRules url
              = Normal (errorReport url message)).
  { intros url. unfold ScannerCatalogue.scanUrl, parseURL.
    destruct (newURL url) as [u |]; cbn; [| eexists; reflexivity].
    destruct (fetchText _) as [text |]; cbn; [| eexists; reflexivity].
    destruct DOMParser; cbn; eexists; reflexivity. }
  split; [exact Hurl |].
  unfold ScannerCatalogue.scanMultipleUrls. cbn zeta.
  destruct (scanLoop_totals (ScannerCatalogue.scanUrl dgaRules) urls)
    as (Hv & Hp & _).
  cbn zeta in Hv, Hp. cbn [fst Aggregation.scanMultipleUrls ar_score ar_status
    ar_violations ar_passed ar_totalChecks].
  rewrite Hv, Hp. clear Hv Hp.
  assert (Hnov : flat_map (pageViolations (ScannerCatalogue.scanUrl dgaRules)) urls = []).
  { apply flat_map_nil. intros url. unfold pageViolations.
    destruct (Hurl url) as (message & ->). reflexivity. }
  assert (Hnop : flat_map (pagePassed (ScannerCatalogue.scanUrl dgaRules)) urls = []).
  { apply flat_map_nil. intros url. unfold pagePassed.
    destruct (Hurl url) as (message & ->). reflexivity. }
  rewrite Hnov, Hnop. repeat split.
Qed.

End ScanUrlFacts.

Section AggregateFacts.
Context `{Net}.
Variable scanUrl : string -> Completion PageReport.

Lemma flat_map_all_nil {A B : Type} (f : A -> list B) (l : list A) :
  (forall a, In a l -> f a = []) -> flat_map f l = [].
Proof.
  induction l as [| a l IH]; intros Hf; cbn; [reflexivity |].
  rewrite (Hf a (or_introl eq_refl)), IH; [reflexivity |].
  intros b Hb. apply Hf. right. exact Hb.
Qed.

(** X7.  When the scan of every page fails, [scanMultipleUrls] reports the
    score 100 and the status Compliant, with no violation and no passed
    check, although every page has the score 0; so it does for an empty
    list of URLs. *)
Theorem all_pages_failed_report (urls : list string) :
  (forall url, In url urls ->
     exists message, scanUrl url = Normal (errorReport url message)) ->
  let r := fst (Aggregation.scanMultipleUrls scanUrl urls) in
  ar_score r = 100 /\ ar_status r = Compliant /\ ar_violations r = []
  /\ ar_passed r = [] /\ ar_totalChecks r = 0%nat
  /\ ar_pagesWithViolations r = 0%nat
  /\ ar_pageResults r
     = List.map (fun url => {| ps_url := url; ps_error := None; ps_score := 0;
                               ps_violationCount := 0; ps_passedCount := 0 |})
         urls.
Proof.
  intros Hfail. cbn zeta.
  destruct (scanLoop_totals scanUrl urls) as (Hv & Hp & Hr & _).
  cbn zeta in Hv, Hp, Hr.
  cbn [fst Aggregation.scanMultipleUrls ar_score ar_status ar_violations
       ar_passed ar_totalChecks ar_pagesWithViolations ar_pageResults].
  rewrite Hv, Hp, Hr.
  rewrite (flat_map_all_nil (pageViolations scanUrl) urls),
    (flat_map_all_nil (pagePassed scanUrl) urls).
  - assert (Hsum : List.map (summaryOf scanUrl) urls
                   = List.map (fun url => {| ps_url := url; ps_error := None;
                                             ps_score := 0; ps_violationCount := 0;
                                             ps_passedCount := 0 |}) urls).
    { apply map_ext_in. intros url Hin. unfold summaryOf.
      destruct (Hfail url Hin) as (message & ->). reflexivity. }
    rewrite Hsum. repeat split.
    clear. induction urls as [| url urls IH]; cbn; [reflexivity | exact IH].
  - intros url Hin. unfold pagePassed.
    destruct (Hfail url Hin) as (message & ->). reflexivity.
  - intros url Hin. unfold pageViolations.
    destruct (Hfail url Hin) as (message & ->). reflexivity.
Qed.

Lemma scanLoop_progress (total : nat) (urls : list string)
    (st : Aggregation.ScanLoop) :
  let st' := fold_left (Aggregation.scanStep scanUrl total) urls st in
  Aggregation.progress st'
  = (Aggregation.progress st
       ++ scanningEvents (Aggregation.scannedCount st) total urls)%list.
Proof.
  revert st. induction urls as [| url urls IH]; intros st; cbn.
  - rewrite app_nil_r. reflexivity.
  - rewrite IH. unfold Aggregation.scanStep.
    destruct (scanUrl url); cbn; rewrite <- app_assoc; reflexivity.
Qed.

(** X8.  [scanMultipleUrls] calls [onProgress] once before each page, in
    the order of the list, with the number of pages already scanned and
    the total, and once at the end with both equal to the total. *)
Theorem scan_progress_events (urls : list string) :
  snd (Aggregation.scanMultipleUrls scanUrl urls)
  = (scanningEvents 0 (List.length urls) urls
       ++ [ScanCompleted (List.length urls) (List.length urls)])%list.
Proof.
  unfold Aggregation.scanMultipleUrls. cbn [snd].
  destruct (scanLoop_totals scanUrl urls) as (_ & _ & _ & Hc).
  cbn zeta in Hc. rewrite Hc. unfold Aggregation.scanLoop.
  rewrite scanLoop_progress. reflexivity.
Qed.

Lemma length_flat_map_sum {A B : Type} (f : A -> list B) (l : list A) :
  List.length (flat_map f l) = list_sum (List.map (fun a => List.length (f a)) l).
Proof.
  induction l as [| a l IH]; cbn; [reflexivity |].
  rewrite length_app, IH. reflexivity.
Qed.

(** X9.  The totals of the aggregate report are those of its page
    summaries: the violations before deduplication and the passed checks
    are the sums of the pages' counts, [totalChecks] is their sum, there is
    one summary per URL in the order of the list, and the pages with
    violations are at most the pages. *)
Theorem aggregate_totals (urls : list string) :
  let r := fst (Aggregation.scanMultipleUrls scanUrl urls) in
  ar_totalViolationsBeforeDedup r
    = list_sum (List.map ps_violationCount (ar_pageResults r))
  /\ List.length (ar_passed r)
     = list_sum (List.map ps_passedCount (ar_pageResults r))
  /\ ar_totalChecks r
     = (list_sum (List.map ps_violationCount (ar_pageResults r))
        + list_sum (List.map ps_passedCount (ar_pageResults r)))%nat
  /\ List.map ps_url (ar_pageResults r) = urls
  /\ ar_totalPages r = List.length (ar_pageResults r)
  /\ (ar_pagesWithViolations r <= ar_totalPages r)%nat.
Proof.
  cbn zeta.
  destruct (scanLoop_totals scanUrl urls) as (Hv & Hp & Hr & _).
  cbn zeta in Hv, Hp, Hr.
  cbn [fst Aggregation.scanMultipleUrls ar_totalViolationsBeforeDedup ar_passed
       ar_totalChecks ar_pageResults ar_totalPages ar_pagesWithViolations].
  rewrite Hv, Hp, Hr, !map_map, !length_flat_map_sum, length_map.
  assert (Hvc : List.map (fun url => List.length (pageViolations scanUrl url)) urls
                = List.map (fun url => ps_violationCount (summaryOf scanUrl url)) urls).
  { apply map_ext. intros url. unfold pageViolations, summaryOf.
    destruct (scanUrl url); cbn; [apply length_map | reflexivity]. }
  assert (Hpc : List.map (fun url => List.length (pagePassed scanUrl url)) urls
                = List.map (fun url => ps_passedCount (summaryOf scanUrl url)) urls).
  { apply map_ext. intros url. unfold pagePassed, summaryOf.
    destruct (scanUrl url); cbn; [apply length_map | reflexivity]. }
  rewrite Hvc, Hpc. repeat split.
  - erewrite map_ext; [apply map_id |]. intros url. unfold summaryOf.
    destruct (scanUrl url); reflexivity.
  - rewrite <- (length_map (summaryOf scanUrl) urls). apply filter_length_le.
Qed.

End AggregateFacts.

(** A page that answers 500 and a page that does not exist. *)
Lemma all_pages_failed_report_witness :
  let r := fst (Scanner.scanMultipleUrls Demo.smallRules
                  [Demo.down; "http://localhost/missing"]) in
  ar_score r = 100 /\ ar_status r = Compliant
  /\ List.map ps_score (ar_pageResults r) = [0; 0].
Proof.
  intros r.
  destruct (all_pages_failed_report (Scanner.scanUrl Demo.smallRules)
              [Demo.down; "http://localhost/missing"]) as (Hs & Hst & _ & _ & _ & _ & Hr).
  - intros url [<- | [<- | []]]; eexists; vm_compute; reflexivity.
  - split; [exact Hs | split; [exact Hst |]].
    subst r. unfold Scanner.scanMultipleUrls. rewrite Hr. reflexivity.
Defined.

Section DedupFacts.

Lemma fold_add_extends (l s : list string) :
  exists rest, fold_left Crawler.add l s = (s ++ rest)%list.
Proof.
  revert s. induction l as [| x l IH]; intros s; cbn.
  - exists []. rewrite app_nil_r. reflexivity.
  - destruct (IH (Crawler.add s x)) as (rest & ->). unfold Crawler.add.
    destruct (Crawler.has s x); [exists rest; reflexivity |].
    exists (x :: rest). rewrite <- app_assoc. reflexivity.
Qed.

Lemma distinct_length (l : list string) :
  (List.length (distinct l) <= List.length l)%nat.
Proof.
  induction l as [| x l IH] using rev_ind; [cbn; lia |].
  rewrite distinct_snoc, length_app. cbn. unfold Crawler.add.
  destruct (Crawler.has (distinct l) x); [lia |].
  rewrite length_app. cbn. lia.
Qed.

Lemma find_filter {A : Type} (f : A -> bool) (l : list A) (a : A) :
  find f l = Some a -> exists rest, filter f l = a :: rest.
Proof.
  induction l as [| x l IH]; cbn; [discriminate |].
  destruct (f x); [| exact IH]. intros Heq. injection Heq as ->. eauto.
Qed.

Lemma dedupStep_fresh (vs : list Violation) (m : Aggregation.ViolationMap) :
  NoDup (List.map Aggregation.violationKey vs) ->
  (forall v, In v vs -> ~ In (Aggregation.violationKey v) (List.map fst m)) ->
  fold_left Aggregation.dedupStep vs m
  = (m ++ List.map
            (fun v => (Aggregation.violationKey v,
                       {| d_violation := v; d_affectedPages := [v_pageUrl v];
                          d_occurrences := 1 |}))
            vs)%list.
Proof.
  revert m. induction vs as [| v vs IH]; intros m Hnd Hfresh; cbn.
  - rewrite app_nil_r. reflexivity.
  - cbn in Hnd. inversion Hnd as [| ? ? Hhead Hnd']; subst.
    assert (Hhas : Aggregation.mapHas (Aggregation.violationKey v) m = false).
    { destruct (Aggregation.mapHas (Aggregation.violationKey v) m) eqn:Hhas;
        [| reflexivity].
      apply mapHas_In in Hhas. contradiction (Hfresh v (or_introl eq_refl)). }
    unfold Aggregation.dedupStep at 2. rewrite Hhas. cbn [negb].
    rewrite IH; [rewrite <- app_assoc; reflexivity | exact Hnd' |].
    intros v' Hv'. rewrite map_app, in_app_iff. cbn. intros [Hin | [Heq | []]].
    + apply (Hfresh v' (or_intror Hv') Hin).
    + apply Hhead. rewrite Heq. apply in_map. exact Hv'.
Qed.

(** X10.  Violations whose keys are pairwise distinct pass through the
    deduplication unchanged and in order, each with its own page as the
    only affected page and [occurrences] 1. *)
Theorem dedup_distinct_keys (vs : list Violation) :
  NoDup (List.map Aggregation.violationKey vs) ->
  Aggregation.dedupViolations vs
  = List.map
      (fun v => {| d_violation := v; d_affectedPages := [v_pageUrl v];
                   d_occurrences := 1 |})
      vs.
Proof.
  intros Hnd. unfold Aggregation.dedupViolations.
  rewrite dedupStep_fresh; [| exact Hnd | intros v _ []].
  cbn. rewrite map_map. reflexivity.
Qed.

End DedupFacts.

Section AffectedPages.
Context `{Net}.
Variable scanUrl : string -> Completion PageReport.

(** X11.  In the aggregate report every deduplicated violation lists pages
    of the scanned list, each once, starting with the page of the violation
    it carries; its [occurrences] is at least 1 and at most the number of
    URLs; the keys of the entries are pairwise distinct, and there are at
    most as many entries as violations before deduplication. *)
Theorem affected_pages_facts (urls : list string) :
  let r := fst (Aggregation.scanMultipleUrls scanUrl urls) in
  Forall
    (fun d =>
       NoDup (d_affectedPages d)
       /\ incl (d_affectedPages d) urls
       /\ (exists rest, d_affectedPages d = v_pageUrl (d_violation d) :: rest)
       /\ (1 <= d_occurrences d <= List.length urls)%nat)
    (ar_violations r)
  /\ NoDup (List.map dedupKey (ar_violations r))
  /\ (List.length (ar_violations r) <= ar_totalViolationsBeforeDedup r)%nat.
Proof.
  cbn zeta. cbn [fst Aggregation.scanMultipleUrls ar_violations
                 ar_totalViolationsBeforeDedup].
  destruct (scanLoop_totals scanUrl urls) as (Hcollected & _).
  cbn zeta in Hcollected. rewrite Hcollected.
  set (collected := flat_map (pageViolations scanUrl) urls).
  destruct (dedupViolations_spec collected) as (Hkeys & Hall).
  cbn zeta in Hkeys, Hall. split; [| split].
  - revert Hall. apply Forall_impl. intros d (Hfind & Hpages & Hocc).
    assert (Hnd : NoDup (d_affectedPages d))
      by (rewrite Hpages; apply NoDup_distinct).
    assert (Hincl : incl (d_affectedPages d) urls).
    { rewrite Hpages. intros url Hin. unfold pagesOfKey in Hin.
      apply In_distinct, in_map_iff in Hin. destruct Hin as (v & <- & Hv).
      apply filter_In in Hv. destruct Hv as (Hv & _).
      unfold collected in Hv. apply in_flat_map in Hv.
      destruct Hv as (url & Hurl & Hv).
      rewrite (pageViolations_url scanUrl url v Hv). exact Hurl. }
    assert (Hhead : exists rest,
              d_affectedPages d = v_pageUrl (d_violation d) :: rest).
    { rewrite Hpages. unfold pagesOfKey.
      destruct (find_filter _ _ _ Hfind) as (others & ->). cbn.
      unfold distinct. cbn.
      destruct (fold_add_extends (List.map v_pageUrl others)
                  [v_pageUrl (d_violation d)]) as (rest & ->).
      exists rest. reflexivity. }
    repeat split; try assumption.
    + destruct Hhead as (rest & Hrest). rewrite Hocc, Hrest. cbn. lia.
    + rewrite Hocc. apply NoDup_incl_length; assumption.
  - rewrite Hkeys. apply NoDup_distinct.
  - rewrite <- (length_map dedupKey), Hkeys, <- (length_map Aggregation.violationKey).
    apply distinct_length.
Qed.

End AffectedPages.

(** The two violations of a page under a catalogue of two failing rules. *)
Lemma dedup_distinct_keys_witness :
  let vs := pageViolations
              (Scanner.scanUrl [Sample.throwingRule; Demo.anchorsRule]) Demo.home in
  List.map Aggregation.violationKey vs = ["41-Rule 41"; "40-Rule 40"]
  /\ List.map (fun d => (d_affectedPages d, d_occurrences d))
       (Aggregation.dedupViolations vs)
     = [([Demo.home], 1%nat); ([Demo.home], 1%nat)].
Proof.
  intros vs.
  assert (Hkeys : List.map Aggregation.violationKey vs = ["41-Rule 41"; "40-Rule 40"])
    by (vm_compute; reflexivity).
  split; [exact Hkeys |].
  rewrite (dedup_distinct_keys vs).
  - vm_compute. reflexivity.
  - rewrite Hkeys. repeat constructor; cbn; intuition discriminate.
Defined.

(** * Further properties of the crawler *)

Section LinkFacts.
Context `{Host} `{Net}.




End LinkFacts.


Section CrawlFacts.
Context `{Host} `{Net}.
Variable baseOrigin : string.
Variable maxPages maxDepth : Z.

Let iteration := Crawler.crawlIteration baseOrigin maxPages maxDepth.
Let run := Crawler.crawlRun baseOrigin maxPages maxDepth.







(** The progress events name the visited pages, in order; no page is
    visited twice. *)
Lemma iteration_announced (s : Crawler.CrawlState) :
  announcedUrls (Crawler.progress s) = Crawler.visitedUrls s
  /\ NoDup (Crawler.visitedUrls s) ->
  announcedUrls (Crawler.progress (iteration s)) = Crawler.visitedUrls (iteration s)
  /\ NoDup (Crawler.visitedUrls (iteration s)).
Proof.
  intros (Ha & Hnd). subst iteration. unfold Crawler.crawlIteration.
  destruct (Crawler.queue s) as [| [url depth] rest]; [auto |].
  destruct (Crawler.has (Crawler.visitedUrls s) url) eqn:Hhas; cbn [orb];
    [auto |].
  destruct (maxDepth <? depth); [auto |].
  assert (Hadd : Crawler.add (Crawler.visitedUrls s) url
                 = (Crawler.visitedUrls s ++ [url])%list)
    by (unfold Crawler.add; rewrite Hhas; reflexivity).
  assert (Hgoal : announcedUrls
                    (Crawler.progress s
                       ++ [Crawler.Crawling (List.length (Crawler.discoveredUrls s))
                             (List.length (Crawler.add (Crawler.visitedUrls s) url))
                             url])
                  = Crawler.add (Crawler.visitedUrls s) url
                  /\ NoDup (Crawler.add (Crawler.visitedUrls s) url)).
  { split; [| apply NoDup_add, Hnd].
    unfold announcedUrls in *. rewrite flat_map_app, Ha, Hadd. reflexivity. }
  destruct (Crawler.fetchLinks baseOrigin url) as [[links |] | message];
    cbn [Crawler.progress Crawler.visitedUrls]; exact Hgoal.
Qed.

End CrawlFacts.

Section CrawlResult.
Context `{Host} `{Net}.

Lemma crawlWebsite_final (baseUrl : string) (u : URL) (maxPages maxDepth : Z)
    (fuel : nat) :
  newURL baseUrl = Some u ->
  (crawlMeasure maxPages (Crawler.crawlInit baseUrl) <= fuel)%nat ->
  let s := Crawler.crawlRun (u_origin u) maxPages maxDepth fuel
             (Crawler.crawlInit baseUrl) in
  Crawler.crawlWebsite fuel baseUrl maxPages maxDepth
  = Some (Normal
            (Crawler.discoveredUrls s,
             (Crawler.progress s
                ++ [Crawler.CrawlCompleted (List.length (Crawler.discoveredUrls s))
                      (List.length (Crawler.visitedUrls s))])%list))
  /\ Crawler.loopCond maxPages s = false.
Proof.
  intros Hu Hfuel. cbn zeta. unfold Crawler.crawlWebsite. rewrite Hu.
  destruct (crawlLoop_terminates (u_origin u) maxPages maxDepth fuel
              (Crawler.crawlInit baseUrl) Hfuel) as (s & Hloop & Hc).
  rewrite Hloop.
  destruct (crawlLoop_is_run (u_origin u) maxPages maxDepth fuel _ s Hloop)
    as (<- & _).
  split; [reflexivity | exact Hc].
Qed.

Lemma announced_completed (events : list Crawler.CrawlProgress) (d v : nat) :
  announcedUrls (events ++ [Crawler.CrawlCompleted d v]) = announcedUrls events.
Proof. unfold announcedUrls. rewrite flat_map_app. cbn. apply app_nil_r. Qed.


(** X14.  The calls of [onProgress] made during the crawl announce each
    visited page once (no page is fetched twice), every announced page is
    in the returned list, and the last call carries the sizes of the
    returned list and of the set of visited pages. *)
Theorem crawl_announces_visits (baseUrl : string) (u : URL) (maxPages maxDepth : Z) :
  newURL baseUrl = Some u ->
  forall fuel,
    (crawlMeasure maxPages (Crawler.crawlInit baseUrl) <= fuel)%nat ->
      exists urls events,
        Crawler.crawlWebsite fuel baseUrl maxPages maxDepth
        = Some (Normal (urls, events))
        /\ NoDup (announcedUrls events)
        /\ incl (announcedUrls events) urls
        /\ exists before,
             events
             = (before
                  ++ [Crawler.CrawlCompleted (List.length urls)
                        (List.length (announcedUrls events))])%list.
Proof.
  intros Hu fuel Hfuel.
  destruct (crawlWebsite_final baseUrl u maxPages maxDepth fuel Hu Hfuel)
    as (Hret & _).
  cbn zeta in Hret. eexists. eexists. split; [exact Hret |].
  set (s := Crawler.crawlRun (u_origin u) maxPages maxDepth fuel
              (Crawler.crawlInit baseUrl)).
  assert (Hann : announcedUrls (Crawler.progress s) = Crawler.visitedUrls s
                 /\ NoDup (Crawler.visitedUrls s)).
  { apply (run_invariant (u_origin u) maxPages maxDepth
             (fun s => announcedUrls (Crawler.progress s) = Crawler.visitedUrls s
                       /\ NoDup (Crawler.visitedUrls s))).
    - intros s0. apply iteration_announced.
    - cbn. split; [reflexivity | constructor]. }
  assert (Hinv : QueueInv s).
  { apply (run_invariant (u_origin u) maxPages maxDepth QueueInv).
    - apply QueueInv_iteration.
    - apply crawlInit_QueueInv. }
  destruct Hann as (Ha & Hnd). destruct Hinv as (_ & _ & Hvis).
  rewrite announced_completed, Ha. split; [exact Hnd | split].
  - intros url Hin. apply Hvis, Hin.
  - eexists. reflexivity.
Qed.

(** X15.  When the crawl ends with fewer pages than [maxPages], it has
    left no page out: every page of the returned list was visited, unless
    it was queued at a depth above [maxDepth]. *)
Theorem crawl_exhaustive_below_budget (baseUrl : string) (u : URL)
    (maxPages maxDepth : Z) :
  newURL baseUrl = Some u ->
  let run := fun n =>
    Crawler.crawlRun (u_origin u) maxPages maxDepth n (Crawler.crawlInit baseUrl) in
  forall fuel,
    (crawlMeasure maxPages (Crawler.crawlInit baseUrl) <= fuel)%nat ->
      exists urls events,
        Crawler.crawlWebsite fuel baseUrl maxPages maxDepth
        = Some (Normal (urls, events))
        /\ (Z.of_nat (List.length urls) < maxPages ->
            forall url, In url urls ->
              In url (announcedUrls events)
              \/ exists i depth,
                   In (url, depth) (Crawler.queue (run i)) /\ maxDepth < depth).
Proof.
  intros Hu run fuel Hfuel.
  destruct (crawlWebsite_final baseUrl u maxPages maxDepth fuel Hu Hfuel)
    as (Hret & Hcond).
  cbn zeta in Hret, Hcond. eexists. eexists. split; [exact Hret |].
  fold (run fuel) in Hcond. fold (run fuel).
  assert (Hall : forall n url,
            In url (Crawler.discoveredUrls (run n)) ->
            In url (Crawler.visitedUrls (run n))
            \/ (exists depth, In (url, depth) (Crawler.queue (run n)))
            \/ exists i depth,
                 In (url, depth) (Crawler.queue (run i)) /\ maxDepth < depth).
  { induction n as [| n IH]; intros url.
    - cbn. intros [<- | []]. right. left. exists 0. left. reflexivity.
    - assert (Hstep : run (S n)
                      = if Crawler.loopCond maxPages (run n)
                        then Crawler.crawlIteration (u_origin u) maxPages maxDepth (run n)
                        else run n).
      { unfold run. replace (S n) with (n + 1)%nat by lia.
        rewrite run_add. reflexivity. }
      rewrite Hstep. destruct (Crawler.loopCond maxPages (run n)); [| apply IH].
      destruct (Crawler.queue (run n)) as [| [url0 depth0] rest] eqn:Hq;
        [rewrite iteration_empty_queue by exact Hq; intros Hin;
         destruct (IH url Hin) as [Hvis | [(depth & []) | Hdeep]];
         [left; exact Hvis | right; right; exact Hdeep] |].
      destruct (iteration_cases (u_origin u) maxPages maxDepth (run n)
                  url0 depth0 rest Hq)
        as [(Hskip & Hd & Hv & Hq') | (_ & _ & new & Hd & Hv & Hq' & _)];
        rewrite Hd, Hv, Hq'.
      + intros Hin. destruct (IH url Hin) as [Hvis | [(depth & Hqueued) | Hdeep]].
        * left. exact Hvis.
        * destruct Hqueued as [Heq | Hrest].
          -- injection Heq as <- <-. destruct Hskip as [Hhas | Hdeep].
             ++ left. apply has_In. exact Hhas.
             ++ right. right. exists n, depth0. rewrite Hq. split;
                  [left; reflexivity | exact Hdeep].
          -- right. left. exists depth. exact Hrest.
        * right. right. exact Hdeep.
      + intros Hin. apply in_app_iff in Hin. destruct Hin as [Hin | Hnew].
        * destruct (IH url Hin) as [Hvis | [(depth & Hqueued) | Hdeep]].
          -- left. apply In_add. left. exact Hvis.
          -- destruct Hqueued as [Heq | Hrest].
             ++ injection Heq as <- <-. left. apply In_add. right. reflexivity.
             ++ right. left. exists depth. apply in_app_iff. left. exact Hrest.
          -- right. right. exact Hdeep.
        * right. left. exists (depth0 + 1). apply in_app_iff. right.
          apply in_map_iff. exists url. split; [reflexivity | exact Hnew]. }
  intros Hroom url Hin.
  assert (Hempty : Crawler.queue (run fuel) = []).
  { unfold Crawler.loopCond in Hcond. apply andb_false_iff in Hcond.
    destruct Hcond as [Hq | Hsize].
    - destruct (Crawler.queue (run fuel)); [reflexivity | discriminate Hq].
    - apply Z.ltb_ge in Hsize. unfold Crawler.size in Hsize. lia. }
  rewrite announced_completed.
  assert (Hann : announcedUrls (Crawler.progress (run fuel))
                 = Crawler.visitedUrls (run fuel)).
  { apply (run_invariant (u_origin u) maxPages maxDepth
             (fun s => announcedUrls (Crawler.progress s) = Crawler.visitedUrls s
                       /\ NoDup (Crawler.visitedUrls s))).
    - intros s0. apply iteration_announced.
    - cbn. split; [reflexivity | constructor]. }
  rewrite Hann. destruct (Hall fuel url Hin) as [Hvis | [(depth & Hqueued) | Hdeep]].
  - left. exact Hvis.
  - rewrite Hempty in Hqueued. destruct Hqueued.
  - right. exact Hdeep.
Qed.

End CrawlResult.


(** On the small site the three pages are announced, each once. *)
Lemma crawl_announces_visits_witness :
  exists urls events,
    Crawler.crawlWebsite 100 Demo.home 50 3 = Some (Normal (urls, events))
    /\ NoDup (announcedUrls events)
    /\ incl (announcedUrls events) urls.
Proof.
  destruct (@crawl_announces_visits Demo.host Demo.net Demo.home
              {| u_site := Demo.site; u_origin := Demo.site;
                 u_hostname := "localhost"; u_pathname := "/";
                 u_search := ""; u_hash := "" |} 50 3
              ltac:(vm_compute; reflexivity) 100%nat ltac:(vm_compute; lia))
    as (urls & events & Hret & Hnd & Hincl & _).
  exists urls, events. auto.
Defined.

(** With [maxDepth = 0] on the small site the crawl ends with 3 pages, below
    the budget of 50: the home page was visited, the two others were
    queued at depth 1. *)
Lemma crawl_exhaustive_below_budget_witness :
  let run := fun n =>
    Crawler.crawlRun Demo.site 50 0 n (Crawler.crawlInit Demo.home) in
  exists events,
    Crawler.crawlWebsite 100 Demo.home 50 0
    = Some (Normal ([Demo.home; Demo.about; Demo.report], events))
    /\ Z.of_nat (List.length [Demo.home; Demo.about; Demo.report]) < 50
    /\ (In Demo.about (announcedUrls events)
        \/ exists i depth,
             In (Demo.about, depth) (Crawler.queue (run i)) /\ 0 < depth).
Proof.
  intros run.
  destruct (@crawl_exhaustive_below_budget Demo.host Demo.net Demo.home
              {| u_site := Demo.site; u_origin := Demo.site;
                 u_hostname := "localhost"; u_pathname := "/";
                 u_search := ""; u_hash := "" |} 50 0
              ltac:(vm_compute; reflexivity) 100%nat ltac:(vm_compute; lia))
    as (urls & events & Hret & Hall).
  assert (Hrun : exists events',
            Crawler.crawlWebsite 100 Demo.home 50 0
            = Some (Normal ([Demo.home; Demo.about; Demo.report], events')))
    by (eexists; vm_compute; reflexivity).
  destruct Hrun as (events' & Hrun). rewrite Hrun in Hret.
  injection Hret as <- <-. exists events'.
  split; [exact Hrun | split; [cbn; lia |]].
  apply Hall; [cbn; lia | right; left; reflexivity].
Defined.

Section SeedAndQueue.
Context `{Host} `{Net}.

(** X16.  When the fetch of the seed is rejected or answers with a status
    that is not [ok], the crawl resolves to the seed alone, whatever the
    budgets. *)
Theorem unreachable_seed (baseUrl : string) (u : URL) (maxPages maxDepth : Z)
    (fuel : nat) :
  newURL baseUrl = Some u ->
  (1 <= fuel)%nat ->
  (let fetchUrl := if isLocalhost u then baseUrl else proxied baseUrl in
   (exists message, fetch fetchUrl = Rejected message)
   \/ (exists status text, fetch fetchUrl = Response false status text)) ->
  exists events,
    Crawler.crawlWebsite fuel baseUrl maxPages maxDepth
    = Some (Normal ([baseUrl], events)).
Proof.
  intros Hu Hfuel Hfetch. cbn zeta in Hfetch.
  assert (Hlinks : forall links,
            Crawler.fetchLinks (u_origin u) baseUrl <> Normal (Some links)).
  { intros links. unfold Crawler.fetchLinks, parseURL. rewrite Hu.
    cbn [Js.bind].
    destruct Hfetch as [(message & ->) | (status & text & ->)]; discriminate. }
  unfold Crawler.crawlWebsite. rewrite Hu.
  destruct fuel as [| fuel]; [lia |]. cbn [Crawler.crawlLoop].
  destruct (Crawler.loopCond maxPages (Crawler.crawlInit baseUrl)) eqn:Hc;
    [| eexists; reflexivity].
  assert (Hnext : exists s,
            Crawler.crawlIteration (u_origin u) maxPages maxDepth
              (Crawler.crawlInit baseUrl) = s
            /\ Crawler.discoveredUrls s = [baseUrl] /\ Crawler.queue s = []).
  { unfold Crawler.crawlIteration. cbn.
    destruct (maxDepth <? 0); [eexists; repeat split |].
    destruct (Crawler.fetchLinks (u_origin u) baseUrl) as [[links |] | message]
      eqn:Hf; [contradiction (Hlinks links) | |]; eexists; repeat split. }
  destruct Hnext as (s & -> & Hd & Hq).
  assert (Hend : Crawler.crawlLoop (u_origin u) maxPages maxDepth fuel s = Some s).
  { destruct fuel; cbn; unfold Crawler.loopCond; rewrite Hq; reflexivity. }
  rewrite Hend, Hd. eexists. reflexivity.
Qed.

Lemma depthsFrom_children (low c : Z) (rest : list (string * Z))
    (new : list string) :
  depthsFrom low rest ->
  (forall url depth, In (url, depth) rest -> depth <= c) ->
  low <= c ->
  depthsFrom low (rest ++ List.map (fun link => (link, c)) new).
Proof.
  revert low. induction rest as [| [url depth] rest IH]; intros low Hfrom Hall Hlow.
  - cbn. clear Hfrom Hall. revert low Hlow.
    induction new as [| link new IHn]; intros low Hlow; cbn; [exact I |].
    split; [exact Hlow | apply IHn; lia].
  - cbn in *. destruct Hfrom as (Hle & Hfrom). split; [exact Hle |].
    apply IH; [exact Hfrom | | apply (Hall url depth); left; reflexivity].
    intros url' depth' Hin. apply (Hall url' depth'). right. exact Hin.
Qed.

Lemma BreadthFirst_iteration (baseOrigin : string) (maxPages maxDepth : Z)
    (s : Crawler.CrawlState) :
  BreadthFirst (Crawler.queue s)
  /\ (forall url depth, In (url, depth) (Crawler.queue s) ->
        depth = 0 \/ 1 <= depth <= maxDepth + 1) ->
  let s' := Crawler.crawlIteration baseOrigin maxPages maxDepth s in
  BreadthFirst (Crawler.queue s')
  /\ (forall url depth, In (url, depth) (Crawler.queue s') ->
        depth = 0 \/ 1 <= depth <= maxDepth + 1).
Proof.
  intros (Hbf & Hbound). cbn zeta.
  destruct (Crawler.queue s) as [| [url0 depth0] rest] eqn:Hq;
    [rewrite iteration_empty_queue by exact Hq; rewrite Hq; split; [exact I |];
     intros url depth [] |].
  cbn in Hbf. destruct Hbf as (Hpos & Hfrom & Hspan).
  assert (Hrest : BreadthFirst rest).
  { destruct rest as [| [url1 depth1] rest1]; [exact I |].
    cbn in Hfrom. destruct Hfrom as (Hle & Hfrom). cbn.
    split; [lia | split; [exact Hfrom |]].
    intros url depth Hin.
    assert (depth <= depth0 + 1) by (apply (Hspan url depth); right; exact Hin).
    lia. }
  destruct (iteration_cases baseOrigin maxPages maxDepth s url0 depth0 rest Hq)
    as [(_ & _ & _ & Hq') | (_ & Hdepth & new & _ & _ & Hq' & _)];
    rewrite Hq'.
  - split; [exact Hrest |]. intros url depth Hin.
    apply (Hbound url depth). right. exact Hin.
  - split.
    + destruct rest as [| [url1 depth1] rest1].
      * cbn. destruct new as [| link new']; [exact I |]. cbn.
        split; [lia | split].
        -- apply (depthsFrom_children (depth0 + 1) (depth0 + 1) [] new');
             [exact I | intros ? ? [] | lia].
        -- intros url depth Hin. apply in_map_iff in Hin.
           destruct Hin as (l & Heq & _). injection Heq as _ <-. lia.
      * cbn in Hfrom. destruct Hfrom as (Hle & Hfrom).
        assert (Hd1 : depth1 <= depth0 + 1)
          by (apply (Hspan url1 depth1); left; reflexivity).
        cbn. split; [lia | split].
        -- apply depthsFrom_children; [exact Hfrom | | exact Hd1].
           intros url depth Hin. apply (Hspan url depth). right. exact Hin.
        -- intros url depth Hin. apply in_app_iff in Hin.
           destruct Hin as [Hin | Hin].
           ++ assert (depth <= depth0 + 1)
                by (apply (Hspan url depth); right; exact Hin).
              lia.
           ++ apply in_map_iff in Hin. destruct Hin as (l & Heq & _).
              injection Heq as _ <-. lia.
    + intros url depth Hin. apply in_app_iff in Hin. destruct Hin as [Hin | Hin].
      * apply (Hbound url depth). right. exact Hin.
      * apply in_map_iff in Hin. destruct Hin as (l & Heq & _).
        injection Heq as _ <-. right. lia.
Qed.

(** X17.  The crawl is breadth-first: at every point of the run the depths
    in the queue never decrease from front to back and differ by at most
    one, so pages are taken in order of depth; and no page is ever queued
    deeper than [maxDepth + 1]. *)
Theorem queue_is_breadth_first (baseUrl baseOrigin : string)
    (maxPages maxDepth : Z) (n : nat) :
  let s := Crawler.crawlRun baseOrigin maxPages maxDepth n
             (Crawler.crawlInit baseUrl) in
  BreadthFirst (Crawler.queue s)
  /\ forall url depth, In (url, depth) (Crawler.queue s) ->
       depth = 0 \/ 1 <= depth <= maxDepth + 1.
Proof.
  cbn zeta.
  apply (run_invariant baseOrigin maxPages maxDepth
           (fun s => BreadthFirst (Crawler.queue s)
                     /\ forall url depth, In (url, depth) (Crawler.queue s) ->
                          depth = 0 \/ 1 <= depth <= maxDepth + 1)).
  - intros s. apply BreadthFirst_iteration.
  - cbn. split; [split; [lia | split; [exact I | intros ? ? []]] |].
    intros url depth [Heq | []]. injection Heq as _ <-. left. reflexivity.
Qed.

Lemma prefix_refl (p : string) : String.prefix p p = true.
Proof.
  induction p as [| c p IH]; cbn; [reflexivity |].
  destruct (ascii_dec c c); [exact IH | contradiction].
Qed.

(** X18.  The test for non-page resources ignores letter case and looks
    only at the end of the string: whatever precedes it, a string that
    ends with a listed extension written in any case is a non-page
    resource. *)
Theorem listed_extension_any_case (before ending ext : string) :
  In ext Crawler.nonPageExtensions ->
  toLowerCase ending = ext ->
  Crawler.isNonPageResource (before ++ ending) = true.
Proof.
  intros Hin Hlow. unfold Crawler.isNonPageResource. apply existsb_exists.
  exists ext. split; [exact Hin |].
  apply endsWith_app. rewrite Hlow. unfold endsWith. apply prefix_refl.
Qed.

End SeedAndQueue.

(** A seed that answers 500. *)
Lemma unreachable_seed_witness :
  fetch Demo.down = Response false 500 (Normal "")
  /\ exists events,
       Crawler.crawlWebsite 1 Demo.down 50 3 = Some (Normal ([Demo.down], events)).
Proof.
  split; [reflexivity |].
  apply (@unreachable_seed Demo.host Demo.net Demo.down
           {| u_site := Demo.site; u_origin := Demo.site;
              u_hostname := "localhost"; u_pathname := "/down";
              u_search := ""; u_hash := "" |} 50 3 1%nat).
  - vm_compute. reflexivity.
  - lia.
  - right. exists 500, (Normal ""). reflexivity.
Defined.

(** An extension in capitals, after a query string. *)
Lemma listed_extension_any_case_witness :
  Crawler.isNonPageResource "http://localhost/get?file=Report.PDF" = true.
Proof.
  apply (listed_extension_any_case "http://localhost/get?file=Report" ".PDF" ".pdf").
  - cbn. auto 10.
  - reflexivity.
Defined.

(** * The comparison with a baseline *)

Section Baseline.

Lemma violationIds_withoutIds (ids : list string) (r : Ui.ScanResult) :
  Ui.violationIds (Ui.withoutIds ids r)
  = filter (fun id => negb (Crawler.has ids id)) (Ui.violationIds r).
Proof.
  destruct r as [report | report]; cbn.
  - induction (pr_violations report) as [| v vs IH]; cbn; [reflexivity |].
    destruct (Crawler.has ids (v_id v)); cbn; rewrite IH; reflexivity.
  - induction (ar_violations report) as [| d ds IH]; cbn; [reflexivity |].
    destruct (Crawler.has ids (v_id (d_violation d))); cbn; rewrite IH; reflexivity.
Qed.

Lemma filter_split_length {A : Type} (f : A -> bool) (l : list A) :
  (List.length l - List.length (filter (fun a => negb (f a)) l))%nat
  = List.length (filter f l).
Proof.
  induction l as [| a l IH]; [reflexivity |].
  assert (Hle : (List.length (filter (fun a => negb (f a)) l) <= List.length l)%nat)
    by apply filter_length_le.
  cbn [filter]. destruct (f a); cbn [negb List.length]; lia.
Qed.

(** X19.  In comparison mode the result shown keeps exactly the violations
    whose rule id is not the id of a violation of the baseline page, and
    [baselineFiltered] counts the removed ones; the score and the passed
    checks are those of the unfiltered result (the score is not computed
    again).  When the baseline has no violation, as when its scan failed,
    nothing is filtered and the result is shown as it is. *)
Theorem baseline_filter (baseline : PageReport) (r : Ui.ScanResult) :
  let shown := Ui.applyBaseline true baseline r in
  let baselineIds := List.map v_id (pr_violations baseline) in
  Ui.violationIds (Ui.result shown)
    = filter (fun id => negb (Crawler.has baselineIds id)) (Ui.violationIds r)
  /\ Ui.scoreOf (Ui.result shown) = Ui.scoreOf r
  /\ Ui.passedOfResult (Ui.result shown) = Ui.passedOfResult r
  /\ (pr_violations baseline <> [] ->
      Ui.comparisonMode shown = true
      /\ Ui.baselineFiltered shown
         = Some (List.length
                   (filter (fun id => Crawler.has baselineIds id) (Ui.violationIds r))))
  /\ (pr_violations baseline = [] ->
      shown = {| Ui.result := r; Ui.comparisonMode := false;
                 Ui.baselineFiltered := None |}).
Proof.
  cbn zeta. unfold Ui.applyBaseline, Ui.baselineViolationIds. cbn [andb].
  set (baselineIds := List.map v_id (pr_violations baseline)).
  assert (Hhas : forall id,
            Crawler.has (distinct baselineIds) id = Crawler.has baselineIds id).
  { intros id. destruct (Crawler.has baselineIds id) eqn:Hb.
    - apply has_In, In_distinct, has_In, Hb.
    - apply has_not_In. rewrite In_distinct. apply has_not_In, Hb. }
  assert (Hfilter : forall l,
            filter (fun id => negb (Crawler.has (distinct baselineIds) id)) l
            = filter (fun id => negb (Crawler.has baselineIds id)) l).
  { intros l. apply filter_ext. intros id. rewrite Hhas. reflexivity. }
  destruct (pr_violations baseline) as [| v vs] eqn:Hb.
  - subst baselineIds. cbn. repeat split; try congruence.
    induction (Ui.violationIds r) as [| id ids IH]; cbn; [reflexivity |].
    rewrite <- IH. reflexivity.
  - assert (Hpos : (0 <? List.length (distinct baselineIds))%nat = true).
    { apply Nat.ltb_lt.
      assert (Hin : In (v_id v) (distinct baselineIds))
        by (apply In_distinct; left; reflexivity).
      destruct (distinct baselineIds); [destruct Hin | cbn; lia]. }
    rewrite Hpos. cbn [Ui.result Ui.comparisonMode Ui.baselineFiltered].
    rewrite violationIds_withoutIds, Hfilter.
    split; [reflexivity |].
    split; [destruct r; reflexivity |].
    split; [destruct r; reflexivity |].
    split; [| discriminate].
    intros _. split; [reflexivity |]. f_equal.
    apply (filter_split_length (fun id => Crawler.has baselineIds id)).
Qed.

End Baseline.

(** The page [about] compared with the home page: both fail rule 40, which
    is removed; the score stays 50. *)
Lemma baseline_filter_witness :
  let baseline := Scanner.scanDocument Demo.smallRules [Demo.about; Demo.report] None in
  let r := Ui.SinglePage (Scanner.scanDocument Demo.smallRules [Demo.home] None) in
  let shown := Ui.applyBaseline true baseline r in
  pr_violations baseline <> []
  /\ Ui.violationIds r = ["40"]
  /\ Ui.violationIds (Ui.result shown) = []
  /\ Ui.baselineFiltered shown = Some 1%nat
  /\ Ui.scoreOf (Ui.result shown) = 50.
Proof.
  intros baseline r shown.
  assert (Hne : pr_violations baseline <> []) by (vm_compute; discriminate).
  destruct (baseline_filter baseline r) as (Hids & Hscore & _ & Hsome & _).
  destruct (Hsome Hne) as (_ & Hcount).
  split; [exact Hne | split; [vm_compute; reflexivity |]].
  split; [subst shown; rewrite Hids; vm_compute; reflexivity |].
  split; [subst shown; rewrite Hcount; vm_compute; reflexivity |].
  subst shown. rewrite Hscore. vm_compute. reflexivity.
Defined.

(** * The copies of the scanner compared *)

Section Copies.
Context `{Host} `{Net}.

Lemma elementSteps_agree (check : Element -> Completion CheckValue)
    (elements : list Element) (acc : ElementsAcc) :
  (forall element, exists b, check element = Normal (VBool b)) ->
  let final := fold_left (Scanner.elementStep check) elements acc in
  fold_left (ScannerSrc.elementStep check) elements
    (Normal (allPass acc, preview acc))
  = Normal (allPass final, preview final)
  /\ violationReason final = violationReason acc
  /\ howToFix final = howToFix acc.
Proof.
  intros Hbool. cbn zeta. revert acc.
  induction elements as [| e elements IH]; intros acc; cbn [fold_left]; [auto |].
  destruct (Hbool e) as (b & Hb).
  assert (Hstep : ScannerSrc.elementStep check (Normal (allPass acc, preview acc)) e
                  = Normal (allPass (Scanner.elementStep check acc e),
                            preview (Scanner.elementStep check acc e))
                  /\ violationReason (Scanner.elementStep check acc e)
                     = violationReason acc
                  /\ howToFix (Scanner.elementStep check acc e) = howToFix acc).
  { unfold ScannerSrc.elementStep, Scanner.elementStep. rewrite Hb. cbn.
    destruct b; cbn; auto. }
  destruct Hstep as (Hs & Hr & Hf). rewrite Hs.
  destruct (IH (Scanner.elementStep check acc e)) as (IH1 & IH2 & IH3).
  rewrite IH1, IH2, IH3, Hr, Hf. auto.
Qed.

Lemma evalRule_agree (doc : Doc) (href : string) (rule : Rule) :
  windowHref = Some href -> BooleanRule doc rule ->
  let o := Scanner.evalRule doc None rule in
  exists o1,
    ScannerSrc.evalRule doc None rule = Normal o1
    /\ violationsOf o1 = List.map withoutReasons (violationsOf o)
    /\ passedOf o1 = passedOf o.
Proof.
  intros Hw (Hglobal & Hcheck). cbn zeta.
  unfold ScannerSrc.evalRule, Scanner.evalRule.
  destruct (r_type rule); [| eexists; repeat split].
  destruct (r_globalCheck rule) as [globalCheck |].
  - destruct (Hglobal globalCheck eq_refl) as (b & Hb).
    unfold ScannerSrc.evalGlobal, Scanner.evalGlobal,
      ScannerSrc.reportPageUrl, Scanner.reportPageUrl.
    rewrite Hb, Hw. cbn. destruct b; cbn; [eexists; repeat split |].
    eexists. split; [reflexivity |]. split; [| reflexivity].
    cbn. unfold withoutReasons, violationEntry. cbn.
    destruct href; reflexivity.
  - destruct (r_selector rule) as [[| c s] |]; try (eexists; repeat split; fail).
    destruct (r_check rule) as [check |]; [| eexists; repeat split].
    unfold ScannerSrc.evalElements, Scanner.evalElements. cbn zeta.
    set (init := {| allPass := true; preview := None;
                    violationReason := None; howToFix := None |}).
    set (elements := querySelectorAll doc (String c s)).
    assert (Hfinal : (if (0 <? List.length elements)%nat
                      then fold_left (Scanner.elementStep check) elements init
                      else init)
                     = fold_left (Scanner.elementStep check) elements init)
      by (destruct elements; reflexivity).
    rewrite Hfinal.
    destruct (elementSteps_agree check elements init) as (Hs & Hr & Hf).
    { intros element. apply (Hcheck check element eq_refl). }
    cbn zeta in Hs, Hr, Hf. change (Normal (true, None))
      with (Normal (allPass init, preview init) : Completion (bool * option string)).
    rewrite Hs. cbn [Js.bind fst snd].
    destruct (allPass (fold_left (Scanner.elementStep check) elements init));
      [eexists; repeat split |].
    unfold ScannerSrc.reportPageUrl, Scanner.reportPageUrl. rewrite Hw. cbn.
    eexists. split; [reflexivity |]. split; [| reflexivity].
    cbn. unfold withoutReasons, violationEntry. cbn.
    destruct href; reflexivity.
Qed.

Lemma src_fold_agree (doc : Doc) (href : string) (rules : list Rule)
    (acc : list Violation * list PassedCheck) :
  windowHref = Some href ->
  (forall rule, In rule rules -> BooleanRule doc rule) ->
  let outcome := Scanner.evalRule doc None in
  fold_left
    (fun acc rule =>
       a <- acc ;; o <- ScannerSrc.evalRule doc None rule ;;
       Normal (pushOutcome a o))
    rules (Normal acc)
  = Normal
      ((fst acc
          ++ List.map withoutReasons
               (flat_map (fun rule => violationsOf (outcome rule)) rules))%list,
       (snd acc ++ flat_map (fun rule => passedOf (outcome rule)) rules)%list).
Proof.
  intros Hw. cbn zeta. revert acc.
  induction rules as [| rule rules IH]; intros [vs ps] Hall; cbn.
  - rewrite !app_nil_r. reflexivity.
  - destruct (evalRule_agree doc href rule Hw (Hall rule (or_introl eq_refl)))
      as (o1 & Ho1 & Hv & Hp).
    cbn zeta in Hv, Hp. rewrite Ho1. cbn [Js.bind].
    rewrite IH by (intros r Hr; apply Hall; right; exact Hr).
    rewrite map_app, <- Hv. f_equal.
    destruct o1; cbn in *; rewrite <- ?Hp, <- ?app_assoc; cbn;
      try rewrite <- Hp; f_equal.
    all: try (rewrite <- Hp; reflexivity).
Qed.

End Copies.

Section CopiesAgree.
Context `{Host} `{Net}.
Variable dgaRules : list Rule.

(** X20.  Where [window] is defined and the predicates of the catalogue
    return booleans (none throws), the two copies of [scanDocument] in
    [dgaScanner.js] give the same report for a document scanned without
    page URL: the same passed checks, score, [totalChecks] and page URL,
    and the same violations up to the fields [violationReason] and
    [howToFix], which only the second copy sets. *)
Theorem copies_agree_on_boolean_rules (doc : Doc) (href : string) :
  windowHref = Some href ->
  (forall rule, In rule dgaRules -> BooleanRule doc rule) ->
  exists r1,
    ScannerSrc.scanDocument dgaRules doc None = Normal r1
    /\ let r := Scanner.scanDocument dgaRules doc None in
       pr_violations r1 = List.map withoutReasons (pr_violations r)
       /\ pr_passed r1 = pr_passed r
       /\ pr_score r1 = pr_score r
       /\ pr_totalChecks r1 = pr_totalChecks r
       /\ pr_pageUrl r1 = pr_pageUrl r.
Proof.
  intros Hw Hbool. unfold ScannerSrc.scanDocument.
  rewrite (src_fold_agree doc href dgaRules ([], []) Hw Hbool).
  unfold ScannerSrc.reportPageUrl. rewrite Hw. cbn [Js.bind fst snd List.app].
  eexists. split; [reflexivity |]. cbn zeta.
  rewrite scanDocument_as_lists. cbn zeta.
  unfold Scanner.annotate, Scanner.reportPageUrl, finishReport.
  rewrite Hw.
  cbn [pr_violations pr_passed pr_score pr_totalChecks pr_pageUrl fst snd].
  rewrite !length_map. repeat split. destruct href; reflexivity.
Qed.

Lemma evalRule_pageUrl (doc : Doc) (pageUrl : option string) (rule : Rule)
    (v : Violation) :
  Scanner.evalRule doc pageUrl rule = ViolationEntry v ->
  v_pageUrl v = Scanner.reportPageUrl pageUrl.
Proof.
  unfold Scanner.evalRule. destruct (r_type rule); [| discriminate].
  destruct (r_globalCheck rule) as [globalCheck |].
  - unfold Scanner.evalGlobal.
    destruct (globalCheck doc) as [value | message]; cbn.
    + destruct value as [[|] | [|] reason fixText | | t]; cbn;
        try discriminate; intros Heq; injection Heq as <-; reflexivity.
    + intros Heq. injection Heq as <-. reflexivity.
  - destruct (r_selector rule) as [[| c s] |]; try discriminate.
    destruct (r_check rule) as [check |]; [| discriminate].
    unfold Scanner.evalElements. cbn zeta. destruct (allPass _); [discriminate |].
    intros Heq. injection Heq as <-. reflexivity.
Qed.

(** X21.  Every violation of a report of [scanDocument] carries the page
    URL of the report, which is the URL given when there is a non-empty
    one, and else the address of the window, or the empty string where
    there is no window. *)
Theorem report_page_url (doc : Doc) (pageUrl : option string) :
  let r := Scanner.scanDocument dgaRules doc pageUrl in
  Forall (fun v => v_pageUrl v = pr_pageUrl r) (pr_violations r)
  /\ (forall url, pageUrl = Some url -> url <> "" -> pr_pageUrl r = url)
  /\ (pageUrl = None \/ pageUrl = Some "" ->
      pr_pageUrl r = match windowHref with Some href => href | None => "" end).
Proof.
  cbn zeta. rewrite scanDocument_as_lists. cbn zeta.
  unfold finishReport. cbn [pr_violations pr_pageUrl fst snd]. split; [| split].
  - apply Forall_forall. intros v Hin. apply in_flat_map in Hin.
    destruct Hin as (rule & _ & Hv).
    destruct (Scanner.evalRule (Scanner.annotate doc pageUrl) pageUrl rule)
      as [| v' |] eqn:Ho; cbn in Hv; try contradiction.
    destruct Hv as [<- | []]. apply (evalRule_pageUrl _ _ _ _ Ho).
  - intros url -> Hne. destruct url; [contradiction Hne; reflexivity | reflexivity].
  - unfold Scanner.reportPageUrl, Js.or.
    intros [-> | ->]; cbn; destruct windowHref as [[| c s] |]; reflexivity.
Qed.

(** X22.  In the copy at [src/utils/dgaScanner.js], one rule whose
    predicate throws on a fetched page voids the page: [scanUrl] returns
    the error-shaped report, with the score 0 and no entry at all, and the
    page adds no violation to the aggregate. *)
Theorem src_throwing_rule_voids_page (url html : string) (u : URL)
    (parse : string -> Doc) (rule : Rule) (message : string) :
  newURL url = Some u ->
  fetchText (if isLocalhost u then url else proxied url) = Normal html ->
  DOMParser = Some parse ->
  In rule dgaRules ->
  ScannerSrc.evalRule (parse html) (Some url) rule = Throw message ->
  (exists message',
     ScannerSrc.scanUrl dgaRules url = Normal (errorReport url message'))
  /\ pageViolations (ScannerSrc.scanUrl dgaRules) url = []
  /\ pagePassed (ScannerSrc.scanUrl dgaRules) url = [].
Proof.
  intros Hu Hfetch Hparse Hin Hthrow.
  destruct (src_scanDocument_propagates dgaRules (parse html) (Some url) rule
              message Hin Hthrow) as (message' & Hscan).
  assert (Hret : ScannerSrc.scanUrl dgaRules url = Normal (errorReport url message')).
  { unfold ScannerSrc.scanUrl, parseURL, ScannerSrc.parseDocument.
    rewrite Hu. cbn [Js.bind]. rewrite Hfetch. cbn [Js.bind].
    rewrite Hparse. cbn [Js.bind]. rewrite Hscan. reflexivity. }
  split; [exists message'; exact Hret |].
  unfold pageViolations, pagePassed. rewrite Hret. split; reflexivity.
Qed.

End CopiesAgree.

(** The small catalogue on a page with one link. *)
Lemma copies_agree_on_boolean_rules_witness :
  exists r1,
    ScannerSrc.scanDocument Demo.smallRules [Demo.about] None = Normal r1
    /\ pr_passed r1
       = pr_passed (Scanner.scanDocument Demo.smallRules [Demo.about] None)
    /\ pr_score r1 = 50.
Proof.
  destruct (@copies_agree_on_boolean_rules Demo.host Demo.smallRules
              [Demo.about] "http://localhost/" eq_refl)
    as (r1 & Hrun & _ & Hp & Hs & _).
  - intros rule [<- | [<- | [<- | []]]]; split.
    + intros globalCheck Heq. discriminate Heq.
    + intros check element Heq. discriminate Heq.
    + intros globalCheck Heq. discriminate Heq.
    + intros check element Heq. injection Heq as <-. exists false. reflexivity.
    + intros globalCheck Heq. injection Heq as <-. eexists. reflexivity.
    + intros check element Heq. discriminate Heq.
  - exists r1. split; [exact Hrun | split; [exact Hp |]].
    rewrite Hs. vm_compute. reflexivity.
Defined.

(** A page scanned with its URL and on the window's address. *)
Lemma report_page_url_witness :
  pr_pageUrl (Scanner.scanDocument Demo.smallRules [Demo.about] (Some Demo.about))
    = Demo.about
  /\ pr_pageUrl (Scanner.scanDocument Demo.smallRules [Demo.about] None)
     = "http://localhost/".
Proof.
  split.
  - destruct (report_page_url Demo.smallRules [Demo.about] (Some Demo.about))
      as (_ & Hurl & _).
    apply Hurl; [reflexivity | discriminate].
  - destruct (report_page_url Demo.smallRules [Demo.about] None) as (_ & _ & Hwin).
    apply Hwin. left. reflexivity.
Defined.

(** The home page of the small site under a catalogue with the throwing
    rule. *)
Lemma src_throwing_rule_voids_page_witness :
  (exists message',
     ScannerSrc.scanUrl [Demo.anchorsRule; Sample.throwingRule] Demo.home
     = Normal (errorReport Demo.home message'))
  /\ pageViolations (ScannerSrc.scanUrl [Demo.anchorsRule; Sample.throwingRule])
       Demo.home = [].
Proof.
  destruct (@src_throwing_rule_voids_page Demo.host Demo.net
              [Demo.anchorsRule; Sample.throwingRule] Demo.home
              (Demo.about ++ " " ++ Demo.report)
              {| u_site := Demo.site; u_origin := Demo.site;
                 u_hostname := "localhost"; u_pathname := "/";
                 u_search := ""; u_hash := "" |}
              Demo.parseAnchors Sample.throwingRule
              "a.href.includes is not a function")
    as (Hret & Hv & _);
    try (vm_compute; reflexivity).
  - right. left. reflexivity.
  - split; [exact Hret | exact Hv].
Defined.

Section QueueFacts.
Context `{Host} `{Net}.

(** X23.  At every point of the crawl each queued page is already in the
    discovered set, no page is in the queue twice, and a visited page is
    discovered and no longer queued: a page is queued at most once in a
    crawl. *)
Theorem queue_invariant (baseUrl baseOrigin : string) (maxPages maxDepth : Z)
    (n : nat) :
  let s := Crawler.crawlRun baseOrigin maxPages maxDepth n
             (Crawler.crawlInit baseUrl) in
  (forall url depth,
     In (url, depth) (Crawler.queue s) -> In url (Crawler.discoveredUrls s))
  /\ NoDup (List.map fst (Crawler.queue s))
  /\ (forall url,
        In url (Crawler.visitedUrls s) ->
        In url (Crawler.discoveredUrls s)
        /\ ~ In url (List.map fst (Crawler.queue s))).
Proof.
  cbn zeta.
  apply (run_invariant baseOrigin maxPages maxDepth QueueInv).
  - apply QueueInv_iteration.
  - apply crawlInit_QueueInv.
Qed.

End QueueFacts.

(** After the first iteration on the small site the two links of the home
    page are queued at depth 1. *)
Lemma queue_is_breadth_first_witness :
  let s := Crawler.crawlRun Demo.site 50 3 1 (Crawler.crawlInit Demo.home) in
  In (Demo.about, 1) (Crawler.queue s)
  /\ (1 = 0 \/ 1 <= 1 <= 3 + 1).
Proof.
  intros s.
  assert (Hin : In (Demo.about, 1) (Crawler.queue s)) by (left; reflexivity).
  split; [exact Hin |].
  destruct (@queue_is_breadth_first Demo.host Demo.net Demo.home Demo.site 50 3 1)
    as (_ & Hbound).
  apply (Hbound Demo.about 1 Hin).
Defined.

(** The page queued after the first iteration is in the discovered set. *)
Lemma queue_invariant_witness :
  let s := Crawler.crawlRun Demo.site 50 3 1 (Crawler.crawlInit Demo.home) in
  In (Demo.about, 1) (Crawler.queue s)
  /\ In Demo.about (Crawler.discoveredUrls s).
Proof.
  intros s.
  assert (Hin : In (Demo.about, 1) (Crawler.queue s)) by (left; reflexivity).
  split; [exact Hin |].
  destruct (@queue_invariant Demo.host Demo.net Demo.home Demo.site 50 3 1)
    as (Hdisc & _).
  apply (Hdisc Demo.about 1 Hin).
Defined.
